(** * The candidate/job matching engine of [matching_system.py]

    A shallow embedding of [MatchingSystem] and the properties of its
    scorers and of the ranking pass [find_matches].

    Conventions of the embedding:
    - Python [str] values are Rocq [string]s read as ASCII text; a value
      that may be [None] is an [option].
    - A Python float is a binary64 value, held as the rational number it
      stands for. The scorers are written with the exact value of the
      expression they return (a decimal literal, a quotient of two ints);
      the float that Python holds is the nearest binary64 value [Float.fl],
      taken where [find_matches] combines the scores: every operation there
      rounds to nearest, ties to even, and [round(x, 2)] rounds the float to
      the nearest decimal with two places and back to a float. Infinities
      and NaN are not represented, and the similarity that the embedding
      capability returns is read as a Python float.
    - [int] of a string refuses more than 4300 digits, the default limit
      of the interpreter.
    - Python [set]s of skills are [gset string].
    - The external capabilities (spaCy entities, sentence embeddings, cosine
      similarity, the Nominatim geocoder, geodesic distance) are parameters;
      the geocoder is a network service, so it threads a state and may raise.
    - [re.search] is a backtracking matcher over the regular-expression
      constructs that the patterns of the source use. *)

From Stdlib Require Import Ascii String ZArith QArith Qabs Qround Lqa.
From stdpp Require Import gmap strings list sorting.

Set Warnings "-clear-no-such-hyp".

Local Open Scope string_scope.

(** ** Text primitives *)

Module Text.

Definition code (c : ascii) : N := N_of_ascii c.

Definition is_digit (c : ascii) : bool :=
  ((48 <=? code c) && (code c <=? 57))%N.

(** [str.isspace] on ASCII: TAB, LF, VT, FF, CR, FS, GS, RS, US and space. *)
Definition is_space (c : ascii) : bool :=
  (((9 <=? code c) && (code c <=? 13))
   || ((28 <=? code c) && (code c <=? 32)))%N.

Definition is_upper (c : ascii) : bool :=
  ((65 <=? code c) && (code c <=? 90))%N.

Definition lower_char (c : ascii) : ascii :=
  if is_upper c then ascii_of_N (code c + 32) else c.

(** [s.lower()] *)
Fixpoint lower (s : string) : string :=
  match s with
  | EmptyString => EmptyString
  | String c s' => String (lower_char c) (lower s')
  end.

Fixpoint starts_with (p s : string) : bool :=
  match p, s with
  | EmptyString, _ => true
  | String a p', String b s' => if Ascii.eqb a b then starts_with p' s' else false
  | String _ _, EmptyString => false
  end.

(** [p in s] for two strings: [p] occurs as a substring of [s]. *)
Fixpoint contains (p s : string) : bool :=
  starts_with p s ||
  match s with
  | EmptyString => false
  | String _ s' => contains p s'
  end.

(** [s.split()]: the maximal runs of non-whitespace characters.
    [cur] is the token being read, in reverse. *)
Definition flush (cur : string) (acc : list string) : list string :=
  match cur with
  | EmptyString => acc
  | _ => String.rev cur :: acc
  end.

Fixpoint split_go (s cur : string) : list string :=
  match s with
  | EmptyString => flush cur []
  | String c s' =>
      if is_space c then flush cur (split_go s' EmptyString)
      else split_go s' (String c cur)
  end.

Definition split (s : string) : list string := split_go s EmptyString.

(** The characters of [s] that satisfy [p], in order. *)
Fixpoint keep (p : ascii -> bool) (s : string) : string :=
  match s with
  | EmptyString => EmptyString
  | String c s' => if p c then String c (keep p s') else keep p s'
  end.

(** [s.replace(c, '')] for a one-character [c]. *)
Definition remove_char (c : ascii) (s : string) : string :=
  keep (fun a => negb (Ascii.eqb a c)) s.

Fixpoint all_chars (p : ascii -> bool) (s : string) : bool :=
  match s with
  | EmptyString => true
  | String c s' => p c && all_chars p s'
  end.

Definition digit_value (c : ascii) : Z := Z.of_N (code c) - 48.

Fixpoint digits_value (acc : Z) (s : string) : Z :=
  match s with
  | EmptyString => acc
  | String c s' => digits_value (10 * acc + digit_value c) s'
  end.

(** The default of [sys.get_int_max_str_digits()]. *)
Definition int_max_str_digits : nat := 4300.

(** [int(s)] at the call sites of the source, which all pass a string of
    decimal digits: [None] stands for the [ValueError] on the empty string,
    on any other character, and on more digits than the limit. *)
Definition py_int (s : string) : option Z :=
  match s with
  | EmptyString => None
  | _ =>
      if all_chars is_digit s then
        if (int_max_str_digits <? String.length s)%nat then None
        else Some (digits_value 0 s)
      else None
  end.

(** The first [n] characters of [s]. *)
Fixpoint take_str (n : nat) (s : string) : string :=
  match n, s with
  | S n', String c s' => String c (take_str n' s')
  | _, _ => EmptyString
  end.

End Text.

(** ** Regular expressions: the fragment of [re] used by the source *)

Module Re.

Inductive regex : Type :=
| Eps : regex
| Chr (p : ascii -> bool) : regex            (* one character of a class *)
| Seq (r1 r2 : regex) : regex
| Opt (r : regex) : regex                    (* an optional part, greedy *)
| Rep (greedy : bool) (p : ascii -> bool) : regex   (* a class, starred: greedy or lazy *)
| Grp (n : nat) (r : regex) : regex.         (* capturing group number n *)

Definition one (c : ascii) : regex := Chr (Ascii.eqb c).

(** A literal word. *)
Fixpoint lit (s : string) : regex :=
  match s with
  | EmptyString => Eps
  | String c s' => Seq (one c) (lit s')
  end.

(** [[p]+], greedy *)
Definition plus (p : ascii -> bool) : regex := Seq (Chr p) (Rep true p).

Definition digit : ascii -> bool := Text.is_digit.          (* \d *)
Definition space : ascii -> bool := Text.is_space.          (* \s *)
Definition dot (c : ascii) : bool := negb (Ascii.eqb c "010"%char).  (* any character but a newline *)

Fixpoint seqs (rs : list regex) : regex :=
  match rs with
  | [] => Eps
  | [r] => r
  | r :: rs' => Seq r (seqs rs')
  end.

Abbreviation captures := (gmap nat string).

(** What the matcher has consumed between [s] and its suffix [s']. *)
Definition consumed (s s' : string) : string :=
  Text.take_str (String.length s - String.length s') s.

(** All the ways of repeating a class at the head of [s], in the order in
    which a backtracking matcher tries them. *)
Fixpoint rep (greedy : bool) (p : ascii -> bool) (s : string) : list string :=
  match s with
  | EmptyString => [EmptyString]
  | String c s' =>
      if p c then
        if greedy then rep greedy p s' ++ [s] else s :: rep greedy p s'
      else [s]
  end.

(** [run r s cs]: every way of matching [r] at the head of [s], as the
    remaining input and the captures, in backtracking order. *)
Fixpoint run (r : regex) (s : string) (cs : captures)
  : list (string * captures) :=
  match r with
  | Eps => [(s, cs)]
  | Chr p =>
      match s with
      | String c s' => if p c then [(s', cs)] else []
      | EmptyString => []
      end
  | Seq r1 r2 =>
      flat_map (fun st => run r2 (fst st) (snd st)) (run r1 s cs)
  | Opt r' => run r' s cs ++ [(s, cs)]
  | Rep g p => map (fun s' => (s', cs)) (rep g p s)
  | Grp n r' =>
      map (fun st => (fst st, <[n := consumed s (fst st)]> (snd st)))
          (run r' s cs)
  end.

(** A match anchored at the head of [s]: the first alternative. *)
Definition match_here (r : regex) (s : string) : option captures :=
  match run r s ∅ with
  | [] => None
  | st :: _ => Some (snd st)
  end.

(** [re.search(r, s)]: the leftmost position at which [r] matches. *)
Fixpoint search (r : regex) (s : string) : option captures :=
  match match_here r s with
  | Some cs => Some cs
  | None =>
      match s with
      | EmptyString => None
      | String _ s' => search r s'
      end
  end.

(** [match.group(n)] of a group that took part in the match. *)
Definition group (cs : captures) (n : nat) : string :=
  default EmptyString (cs !! n).

End Re.

(** ** Numbers *)

Local Open Scope Q_scope.

Definition Qltb (x y : Q) : bool := negb (Qle_bool y x).

(** Round to the nearest integer, ties to the even one. *)
Definition round_half_even (x : Q) : Z :=
  let f := Qfloor x in
  match Qcompare (x - inject_Z f) (1 # 2) with
  | Lt => f
  | Gt => (f + 1)%Z
  | Eq => if Z.even f then f else (f + 1)%Z
  end.

(** The decimal with two places nearest to [x], ties to even. *)
Definition round2 (x : Q) : Q := inject_Z (round_half_even (x * 100)) / 100.

(** Binary64 arithmetic on the rationals. *)
Module Float.

(** Every finite binary64 value is a multiple of 2^-1074. *)
Definition scale : Z := 2 ^ 1074.

(** The spacing of the binary64 values around a number, both counted in
    units of the scale: 53 significant bits, and never below one unit. *)
Definition spacing (y : Q) : Z :=
  2 ^ (Z.max (Z.log2 (Qfloor (Qabs y))) 52 - 52).

(** The binary64 value nearest to a number given in units of the scale,
    in the same units. *)
Definition grid (y : Q) : Z :=
  (round_half_even (y / inject_Z (spacing y)) * spacing y)%Z.

(** The binary64 value nearest to [x], ties to the even significand: the
    float of a literal, and the rounding of every operation. *)
Definition fl (x : Q) : Q :=
  Qred (inject_Z (grid (x * inject_Z scale)) / inject_Z scale).

(** [x + y] and [x * y] on two floats *)
Definition add (x y : Q) : Q := fl (x + y).
Definition mul (x y : Q) : Q := fl (x * y).

(** [round(x, 2)] on a float: the nearest decimal with two places, read
    back as a float. *)
Definition round2 (x : Q) : Q := fl (round2 x).

End Float.

(** [a / b] on two [int]s; [None] is [ZeroDivisionError]. *)
Definition true_div (a b : Z) : option Q :=
  if (b =? 0)%Z then None else Some (inject_Z a / inject_Z b).

(** Truth value of an optional string or list: [None] and the empty value
    are false. *)
Definition truthy_str (o : option string) : bool :=
  match o with
  | Some (String _ _) => true
  | _ => false
  end.

Definition truthy_list {A} (o : option (list A)) : bool :=
  match o with
  | Some (_ :: _) => true
  | _ => false
  end.

(** The string behind a value that has passed a truth test. *)
Definition text_of (o : option string) : string :=
  match o with
  | Some s => s
  | None => EmptyString
  end.

(** The elements of a list that has passed a truth test. *)
Definition items {A} (o : option (list A)) : list A :=
  match o with
  | Some l => l
  | None => []
  end.

(** [l[:n]] *)
Definition slice_to {A} (n : Z) (l : list A) : list A :=
  if (0 <=? n)%Z then take (Z.to_nat n) l
  else take (length l - Z.to_nat (- n)) l.

(** ** The patterns of the source *)

Module Patterns.
Import Re.

Definition num (n : nat) : regex := Grp n (plus digit).      (* ( \d+ ) *)
Definition plus_sign : regex := Opt (one "+").                (* \+? *)
Definition spaces : regex := Rep true space.                  (* \s* *)
Definition years : regex := Seq (lit "year") (Opt (one "s")). (* years? *)
Definition of_ : regex := Opt (Seq (lit "of") spaces).        (* (?: of \s* )? *)

(** First pattern (written spaced out):
    [( \d+ ) \+? \s* years? \s* (?: of \s* )? experience] *)
Definition years_experience : regex :=
  seqs [num 1; plus_sign; spaces; years; spaces; of_; lit "experience"].

(** Second pattern: [experience \s* (?: of \s* )? \s* ( \d+ ) \+? \s* years?] *)
Definition experience_years : regex :=
  seqs [lit "experience"; spaces; of_; spaces; num 1; plus_sign; spaces; years].

(** Third pattern: [( \d+ ) \+? \s* years? \s* (?: of \s* )? professional] *)
Definition years_professional : regex :=
  seqs [num 1; plus_sign; spaces; years; spaces; of_; lit "professional"].

(** Fourth pattern: [( \d+ ) \+? \s* yrs? \s* exp] *)
Definition yrs_exp : regex :=
  seqs [num 1; plus_sign; spaces; lit "yr"; Opt (one "s"); spaces; lit "exp"].

Definition patterns : list regex :=
  [years_experience; experience_years; years_professional; yrs_exp].

(** Range pattern: [( \d+ ) \s* to \s* ( \d+ ) \s* years?] *)
Definition range_pattern : regex :=
  seqs [num 1; spaces; lit "to"; spaces; num 2; spaces; years].

(** Salary pattern: [( \d+ ) .*? ( \d+ )] *)
Definition salary_pattern : regex :=
  seqs [num 1; Rep false dot; num 2].

End Patterns.

(** ** Scorers that use no external capability *)

(** The [for pattern in patterns] loop: the captures of the first pattern,
    in list order, that is found in [t]. *)
Fixpoint first_match (ps : list Re.regex) (t : string) : option Re.captures :=
  match ps with
  | [] => None
  | p :: ps' =>
      match Re.search p t with
      | Some cs => Some cs
      | None => first_match ps' t
      end
  end.

(** [extract_experience_years]; [None] is an exception of [int]. *)
Definition extract_experience_years (text : string) : option Z :=
  let t := Text.lower text in
  match first_match Patterns.patterns t with
  | Some cs => Text.py_int (Re.group cs 1)
  | None =>
      match Re.search Patterns.range_pattern t with
      | Some cs =>
          n1 ← Text.py_int (Re.group cs 1);
          n2 ← Text.py_int (Re.group cs 2);
          Some ((n1 + n2) `div` 2)%Z
      | None => Some 0%Z
      end
  end.

(** The body of the [try] of [calculate_salary_match]: [None] is an
    exception, [Some None] is falling out of the [if salary_match]. *)
Definition salary_try (candidate_expected job_salary_range : string)
  : option (option Q) :=
  match Re.search Patterns.salary_pattern
          (Text.remove_char "," job_salary_range) with
  | Some cs =>
      min_salary ← Text.py_int (Re.group cs 1);
      max_salary ← Text.py_int (Re.group cs 2);
      candidate_salary ← Text.py_int (Text.keep Text.is_digit candidate_expected);
      if (min_salary <=? candidate_salary)%Z && (candidate_salary <=? max_salary)%Z
      then Some (Some 1.0)
      else if (candidate_salary <? min_salary)%Z
      then Some <$> true_div candidate_salary min_salary
      else Some <$> true_div max_salary candidate_salary
  | None => Some None
  end.

(** [calculate_salary_match]; the expectation is given as its [str()]. *)
Definition calculate_salary_match
    (candidate_expected job_salary_range : option string) : Q :=
  if negb (truthy_str candidate_expected) || negb (truthy_str job_salary_range)
  then 0.5
  else
    match salary_try (text_of candidate_expected) (text_of job_salary_range) with
    | Some (Some score) => score
    | Some None => 0.5
    | None => 0.5
    end.

(** The end of [calculate_skills_match], from the test of [required_set]
    on, over the two normalised sets. *)
Definition match_ratio (candidate_set required_set : gset string) : Q :=
  if decide (required_set = ∅) then 1.0
  else
    let matched := size (candidate_set ∩ required_set) in
    let total_required := size required_set in
    inject_Z (Z.of_nat matched) / inject_Z (Z.of_nat total_required).

(** [calculate_skills_match] *)
Definition calculate_skills_match
    (candidate_skills required_skills : option (list string)) : Q :=
  if negb (truthy_list candidate_skills) || negb (truthy_list required_skills)
  then 0.0
  else
    let candidate_set : gset string :=
      list_to_set (map Text.lower (items candidate_skills)) in
    let required_set : gset string :=
      list_to_set (map Text.lower (items required_skills)) in
    match_ratio candidate_set required_set.

(** ** The skills vocabulary ([self.tech_skills]) *)

Definition tech_skills : list (string * list string) :=
  [ ("programming",
      ["python"; "java"; "javascript"; "c++"; "c#"; "ruby"; "go"; "rust";
       "swift"; "kotlin"; "php"; "typescript"; "scala"; "r"; "matlab"]);
    ("web",
      ["html"; "css"; "react"; "angular"; "vue"; "node.js"; "django"; "flask";
       "spring"; "express"; "next.js"; "nuxt.js"]);
    ("database",
      ["sql"; "mysql"; "postgresql"; "mongodb"; "redis"; "cassandra";
       "elasticsearch"; "dynamodb"]);
    ("cloud",
      ["aws"; "azure"; "gcp"; "docker"; "kubernetes"; "terraform"; "jenkins";
       "ci/cd"]);
    ("data",
      ["pandas"; "numpy"; "scikit-learn"; "tensorflow"; "pytorch"; "keras";
       "tableau"; "power bi"; "spark"]);
    ("mobile",
      ["android"; "ios"; "react native"; "flutter"; "xamarin"; "swift";
       "kotlin"]);
    ("design",
      ["figma"; "sketch"; "adobe xd"; "photoshop"; "illustrator"; "ui/ux";
       "wireframing"]);
    ("soft_skills",
      ["leadership"; "communication"; "teamwork"; "problem solving";
       "critical thinking"; "creativity"; "adaptability"]) ].

(** ** Records of the ranking pass *)

(** The fields of [job_data] that the engine reads, after [.get(k, '')]. *)
Record job := {
  job_title : string;
  job_description : string;
  required_skills : string;
  job_location : option string;
  salary_range : string;
  experience_required : string
}.

(** A row of [candidates_df]; every cell is given as its [str()]. *)
Record candidate := {
  candidate_id : string;
  full_name : string;
  email : string;
  current_position : string;
  years_experience : string;
  skills : string;
  profile_summary : string;
  location : string;
  expected_salary : string
}.

Record match_result := {
  m_candidate_id : string;
  m_name : string;
  m_email : string;
  m_current_position : string;
  m_years_experience : Z;
  m_location : string;
  match_percentage : Q;
  skills_match : Q;
  experience_match : Q;
  location_match : Q;
  matching_skills : list string;
  missing_skills : list string;
  additional_skills : list string
}.

(** What [self.geolocator.geocode] does on one call. *)
Inductive geo_outcome : Type :=
| GeoRaise                       (* the call raises *)
| GeoNone                        (* no result *)
| GeoFound (latitude longitude : Q).

(** ** Sorting by [match_percentage], descending and stable *)

(** [insert_desc m ms] puts [m] in front of the first entry whose
    percentage is not larger: [m] stays ahead of its equals. *)
Fixpoint insert_desc (m : match_result) (ms : list match_result)
  : list match_result :=
  match ms with
  | [] => [m]
  | m' :: ms' =>
      if Qltb (match_percentage m) (match_percentage m')
      then m' :: insert_desc m ms'
      else m :: ms
  end.

(** [matches.sort(key=lambda x: x['match_percentage'], reverse=True)] *)
Fixpoint sort_desc (ms : list match_result) : list match_result :=
  match ms with
  | [] => []
  | m :: ms' => insert_desc m (sort_desc ms')
  end.

(** ** What the ranking pass is measured against *)

(** The component scores behind a match result, as floats. *)
Record scores := {
  skills_score : Q;
  semantic_score : Q;
  experience_score : Q;
  location_score : Q
}.

(** The weighted final score, as [find_matches] computes it on floats. *)
Definition weighted_sum (s : scores) : Q :=
  Float.add
    (Float.add
       (Float.add (Float.mul (skills_score s) (Float.fl 0.35))
                  (Float.mul (semantic_score s) (Float.fl 0.30)))
       (Float.mul (experience_score s) (Float.fl 0.20)))
    (Float.mul (location_score s) (Float.fl 0.15)).


(** [m] is the result written for candidate [c]: same identity fields. *)
Definition result_of (m : match_result) (c : candidate) : Prop :=
  m_candidate_id m = candidate_id c /\ m_name m = full_name c /\
  m_email m = email c /\ m_current_position m = current_position c /\
  m_location m = location c.

(** The rows that are scored: those with a name. *)
Definition eligible (cands : list candidate) : list candidate :=
  List.filter (fun c => truthy_str (Some (full_name c))) cands.



(** ** The engine over its external capabilities *)

Section Engine.

(** The state of the geocoding service. *)
Variable W : Type.
(** [self.geolocator.geocode] *)
Variable geocode : string -> W -> geo_outcome * W.
(** [geodesic(p1, p2).kilometers]; [None] when it raises. *)
Variable geodesic : Q * Q -> Q * Q -> option Q.
(** [self.nlp(text).ents] as (text, label) pairs. *)
Variable nlp_ents : string -> list (string * string).
(** [self.sentence_model.encode] on one text. *)
Variable encode : string -> list Q.
(** [cosine_similarity([u], [v])[0][0]] *)
Variable cosine_similarity : list Q -> list Q -> Q.

Definition entity_labels : list string := ["ORG"; "PRODUCT"; "TECHNOLOGY"].

(** [extract_skills]: the list of a set, so without duplicates; its order
    is not specified in Python. *)
Definition extract_skills (text : string) : list string :=
  let text_lower := Text.lower text in
  let from_database :=
    flat_map (fun entry =>
                filter (fun skill => Text.contains skill text_lower = true)
                       (snd entry))
             tech_skills in
  let from_entities :=
    map (fun ent => Text.lower (fst ent))
        (filter (fun ent => snd ent ∈ entity_labels) (nlp_ents text)) in
  elements (list_to_set (from_database ++ from_entities) : gset string).

(** The string comparison of the [except] branch. *)
Definition simple_fallback (candidate_location job_location : string) : Q :=
  if String.eqb (Text.lower candidate_location) (Text.lower job_location)
  then 1.0 else 0.3.

(** The string comparison of the [else] branch inside the [try]. *)
Definition string_fallback (candidate_location job_location : string) : Q :=
  if String.eqb (Text.lower candidate_location) (Text.lower job_location)
  then 1.0
  else if existsb (fun part => Text.contains part (Text.lower job_location))
                  (Text.split (Text.lower candidate_location))
  then 0.7
  else 0.3.

Definition distance_band (distance : Q) : Q :=
  if Qltb distance 50 then 1.0
  else if Qltb distance 100 then 0.8
  else if Qltb distance 500 then 0.5
  else 0.2.

(** The body of the [try] of [calculate_location_score]; [None] is an
    exception raised inside it. *)
Definition location_try (candidate_location job_location : string) (w : W)
  : option Q * W :=
  match geocode candidate_location w with
  | (GeoRaise, w1) => (None, w1)
  | (loc1, w1) =>
      match geocode job_location w1 with
      | (GeoRaise, w2) => (None, w2)
      | (loc2, w2) =>
          match loc1, loc2 with
          | GeoFound lat1 lon1, GeoFound lat2 lon2 =>
              (distance_band <$> geodesic (lat1, lon1) (lat2, lon2), w2)
          | _, _ => (Some (string_fallback candidate_location job_location), w2)
          end
      end
  end.

(** [calculate_location_score] *)
Definition calculate_location_score
    (candidate_location job_location : option string) (w : W) : Q * W :=
  if negb (truthy_str candidate_location) || negb (truthy_str job_location)
  then (0.5, w)
  else
    let c := text_of candidate_location in
    let j := text_of job_location in
    if Text.contains "remote" (Text.lower c)
       || Text.contains "remote" (Text.lower j)
    then (1.0, w)
    else
      match location_try c j w with
      | (Some score, w') => (score, w')
      | (None, w') => (simple_fallback c j, w')
      end.

(** [calculate_semantic_similarity] *)
Definition calculate_semantic_similarity (text1 text2 : string) : Q :=
  if negb (truthy_str (Some text1)) || negb (truthy_str (Some text2)) then 0.0
  else cosine_similarity (encode text1) (encode text2).

(** The experience score of [find_matches]. *)
Definition experience_score_of (candidate_years required : Z) : Q :=
  if (0 <? required)%Z then
    if (required <=? candidate_years)%Z then 1.0
    else inject_Z candidate_years / inject_Z required
  else 1.0.

(** One iteration of the loop of [find_matches] for a candidate that has
    a name. [None] is an exception, which ends the whole call. The four
    scores are the floats of what the scorers return; the weighted sum adds
    its four products from left to right. *)
Definition score_candidate (job_location : option string)
    (required_experience : Z) (required_skills : list string)
    (job_profile : string) (cand : candidate) (w : W)
  : option (match_result * W) :=
  let candidate_skills_text := skills cand in
  let candidate_experience_text := profile_summary cand in
  let candidate_position := current_position cand in
  let candidate_location := location cand in
  let candidate_skills :=
    extract_skills (candidate_skills_text +:+ " " +:+ candidate_experience_text
                    +:+ " " +:+ candidate_position) in
  candidate_experience_years ←
    extract_experience_years
      (candidate_experience_text +:+ " " +:+ years_experience cand);
  let candidate_profile :=
    candidate_position +:+ " " +:+ candidate_skills_text +:+ " "
    +:+ candidate_experience_text in
  let skills_score :=
    Float.fl (calculate_skills_match (Some candidate_skills)
                (Some required_skills)) in
  let semantic_score :=
    Float.fl (calculate_semantic_similarity job_profile candidate_profile) in
  let '(location_value, w') :=
    calculate_location_score (Some candidate_location) job_location w in
  let location_score := Float.fl location_value in
  let experience_score :=
    Float.fl (experience_score_of candidate_experience_years
                required_experience) in
  let final_score :=
    Float.add
      (Float.add
         (Float.add (Float.mul skills_score (Float.fl 0.35))
                    (Float.mul semantic_score (Float.fl 0.30)))
         (Float.mul experience_score (Float.fl 0.20)))
      (Float.mul location_score (Float.fl 0.15)) in
  let candidate_set : gset string := list_to_set candidate_skills in
  let required_set : gset string := list_to_set required_skills in
  Some ({| m_candidate_id := candidate_id cand;
           m_name := full_name cand;
           m_email := email cand;
           m_current_position := current_position cand;
           m_years_experience := candidate_experience_years;
           m_location := candidate_location;
           match_percentage := Float.round2 (Float.mul final_score 100);
           skills_match := Float.round2 (Float.mul skills_score 100);
           experience_match := Float.round2 (Float.mul experience_score 100);
           location_match := Float.round2 (Float.mul location_score 100);
           matching_skills := elements (candidate_set ∩ required_set);
           missing_skills := elements (required_set ∖ candidate_set);
           additional_skills := elements (candidate_set ∖ required_set) |},
        w').

(** The loop over the rows: candidates without a name are skipped. *)
Fixpoint score_all (job_location : option string)
    (required_experience : Z) (required_skills : list string)
    (job_profile : string) (cands : list candidate) (w : W)
  : option (list match_result * W) :=
  match cands with
  | [] => Some ([], w)
  | cand :: rest =>
      if negb (truthy_str (Some (full_name cand)))
      then score_all job_location required_experience required_skills
                     job_profile rest w
      else
        '(m, w1) ← score_candidate job_location required_experience
                      required_skills job_profile cand w;
        '(ms, w2) ← score_all job_location required_experience required_skills
                      job_profile rest w1;
        Some (m :: ms, w2)
  end.

(** [find_matches] *)
Definition find_matches (job_data : job) (candidates_df : list candidate)
    (top_n : Z) (w : W) : option (list match_result * W) :=
  let job_description := job_description job_data in
  let required_skills_text := required_skills job_data in
  let job_title := job_title job_data in
  let job_location := job_location job_data in
  required_experience ←
    extract_experience_years
      (job_description +:+ " " +:+ experience_required job_data);
  let required_skills :=
    extract_skills (job_description +:+ " " +:+ required_skills_text
                    +:+ " " +:+ job_title) in
  let job_profile :=
    job_title +:+ " " +:+ job_description +:+ " " +:+ required_skills_text in
  '(matches, w') ← score_all job_location required_experience required_skills
                     job_profile candidates_df w;
  Some (slice_to top_n (sort_desc matches), w').

End Engine.

(** ** The scores behind a result *)

Section Components.

Variable W : Type.
Variable geocode : string -> W -> geo_outcome * W.
Variable geodesic : Q * Q -> Q * Q -> option Q.
Variable nlp_ents : string -> list (string * string).
Variable encode : string -> list Q.
Variable cosine_similarity : list Q -> list Q -> Q.

(** The texts that [find_matches] builds from a job and from a row. *)
Definition job_years_text (j : job) : string :=
  job_description j +:+ " " +:+ experience_required j.
Definition job_skills_text (j : job) : string :=
  job_description j +:+ " " +:+ required_skills j +:+ " " +:+ job_title j.
Definition job_profile_text (j : job) : string :=
  job_title j +:+ " " +:+ job_description j +:+ " " +:+ required_skills j.
Definition candidate_years_text (c : candidate) : string :=
  profile_summary c +:+ " " +:+ years_experience c.
Definition candidate_skills_text (c : candidate) : string :=
  skills c +:+ " " +:+ profile_summary c +:+ " " +:+ current_position c.
Definition candidate_profile_text (c : candidate) : string :=
  current_position c +:+ " " +:+ skills c +:+ " " +:+ profile_summary c.

(** The four component scores of candidate [c] for job [j], given the two
    extracted numbers of years and the geocoder state at that row. *)
Definition component_scores (j : job) (c : candidate)
    (required_years candidate_years : Z) (w : W) : scores :=
  {| skills_score :=
       Float.fl
         (calculate_skills_match
            (Some (extract_skills nlp_ents (candidate_skills_text c)))
            (Some (extract_skills nlp_ents (job_skills_text j))));
     semantic_score :=
       Float.fl
         (calculate_semantic_similarity encode cosine_similarity
            (job_profile_text j) (candidate_profile_text c));
     experience_score :=
       Float.fl (experience_score_of candidate_years required_years);
     location_score :=
       Float.fl
         (fst (calculate_location_score W geocode geodesic
                 (Some (location c)) (job_location j) w)) |}.

(** [m] was written by the loop of [find_matches] for row [c]. *)
Definition scored_from (j : job) (required_years : Z)
    (m : match_result) (c : candidate) : Prop :=
  exists w w',
    score_candidate W geocode geodesic nlp_ents encode cosine_similarity
      (job_location j) required_years
      (extract_skills nlp_ents (job_skills_text j)) (job_profile_text j)
      c w = Some (m, w').

End Components.

(** * Notions used in the statements *)

(** ** Texts *)

Definition is_lower_letter (c : ascii) : bool :=
  ((97 <=? Text.code c) && (Text.code c <=? 122))%N.

Definition upper_char (c : ascii) : ascii :=
  if is_lower_letter c then ascii_of_N (Text.code c - 32) else c.

(** The text in capital letters. *)
Fixpoint upper (s : string) : string :=
  match s with
  | EmptyString => EmptyString
  | String c s' => String (upper_char c) (upper s')
  end.

(** [c * n] *)
Fixpoint replicate (n : nat) (c : ascii) : string :=
  match n with
  | O => EmptyString
  | S n' => String c (replicate n' c)
  end.

(** A number of 4301 digits. *)
Definition long_numeral : string := replicate 4301 "1".

(** No more characters than [int] accepts digits. *)
Definition within_int_limit (s : string) : Prop :=
  (String.length s <= Text.int_max_str_digits)%nat.

(** The texts from which [find_matches] reads numbers of years are within
    the limit of [int]: the job's, and that of every row with a name. *)
Definition modest_texts (j : job) (cands : list candidate) : Prop :=
  within_int_limit (job_years_text j) /\
  forall c, c ∈ eligible cands -> within_int_limit (candidate_years_text c).

Definition within_int_limitb (s : string) : bool :=
  (String.length s <=? Text.int_max_str_digits)%nat.

Definition modest_textsb (j : job) (cands : list candidate) : bool :=
  within_int_limitb (job_years_text j)
  && forallb (fun c => within_int_limitb (candidate_years_text c))
             (eligible cands).

(** ** Captures of numbers *)

Module ReSpec.
Import Re.

(** A non-empty string of decimal digits. *)
Definition numeral (v : string) : Prop :=
  v <> EmptyString /\ Text.all_chars Text.is_digit v = true.

(** Patterns whose groups all are [(\d+)]. *)
Fixpoint numeric_groups (r : regex) : Prop :=
  match r with
  | Eps | Chr _ | Rep _ _ => True
  | Seq r1 r2 => numeric_groups r1 /\ numeric_groups r2
  | Opt r' => numeric_groups r'
  | Grp _ r' => r' = plus digit
  end.

(** Group [n] takes part in every match of the pattern. *)
Fixpoint binds (n : nat) (r : regex) : bool :=
  match r with
  | Eps | Chr _ | Rep _ _ | Opt _ => false
  | Seq r1 r2 => binds n r1 || binds n r2
  | Grp m r' => Nat.eqb n m || binds n r'
  end.

Definition numeral_caps (cs : captures) : Prop :=
  map_Forall (fun _ v => numeral v) cs.

End ReSpec.

(** ** Skills, locations, order *)

(** The normalised set of a skills list: [set([s.lower() for s in l])]. *)
Definition skill_set (l : list string) : gset string :=
  list_to_set (map Text.lower l).

(** [|a ∩ b| / |b|] *)
Definition overlap_ratio (a b : gset string) : Q :=
  inject_Z (Z.of_nat (size (a ∩ b))) / inject_Z (Z.of_nat (size b)).

(** A geocoder that also keeps the list of the queries it has received. *)
Definition with_log {W} (geocode : string -> W -> geo_outcome * W)
  : string -> W * list string -> geo_outcome * (W * list string) :=
  fun query st =>
    let '(w, log) := st in
    let '(r, w') := geocode query w in
    (r, (w', (log ++ [query])%list)).

(** The geocoder gives coordinates for the candidate's location and then
    for the job's. *)
Definition coordinates_for_both {W} (geocode : string -> W -> geo_outcome * W)
    (candidate_location job_location : string) (w : W) : Prop :=
  exists lat1 lon1 w1 lat2 lon2 w2,
    geocode candidate_location w = (GeoFound lat1 lon1, w1) /\
    geocode job_location w1 = (GeoFound lat2 lon2, w2).

(** One of the two calls raises (the second is made only when the first
    has returned). *)
Definition geocoding_raises {W} (geocode : string -> W -> geo_outcome * W)
    (candidate_location job_location : string) (w : W) : Prop :=
  (exists w1, geocode candidate_location w = (GeoRaise, w1)) \/
  (exists r1 w1 w2, geocode candidate_location w = (r1, w1) /\
                    r1 <> GeoRaise /\
                    geocode job_location w1 = (GeoRaise, w2)).

(** Neither location is missing and neither mentions remote work. *)
Definition plain_locations (c j : string) : Prop :=
  c <> EmptyString /\ j <> EmptyString /\
  Text.contains "remote" (Text.lower c) = false /\
  Text.contains "remote" (Text.lower j) = false.

(** A token of the lowercased candidate location occurs in the lowercased
    job location. *)
Definition shares_token (c j : string) : Prop :=
  exists part, part ∈ Text.split (Text.lower c) /\
               Text.contains part (Text.lower j) = true.

Definition location_values : list Q := [0.2; 0.3; 0.5; 0.7; 0.8; 1.0].

Definition not_below (a b : match_result) : Prop :=
  match_percentage b <= match_percentage a.

(** Descending by [match_percentage]. *)
Definition descending (ms : list match_result) : Prop :=
  StronglySorted not_below ms.

(** The entries of [ms] whose percentage is [v], in their order in [ms]. *)
Definition with_percentage (v : Q) (ms : list match_result)
  : list match_result :=
  List.filter (fun m => Qeq_bool (match_percentage m) v) ms.

(** ** Stubs of the capabilities and sample data *)

(** A geocoder that is down: every call raises. *)
Definition geocoder_down : string -> unit -> geo_outcome * unit :=
  fun _ w => (GeoRaise, w).

(** A geocoder that knows no place. *)
Definition geocoder_blank : string -> unit -> geo_outcome * unit :=
  fun _ w => (GeoNone, w).

Definition no_distance : Q * Q -> Q * Q -> option Q := fun _ _ => None.

(** Stubs of the capabilities: no named entity; one-dimensional
    embeddings, whose cosine similarity is the sign of the product. *)
Definition no_entities : string -> list (string * string) := fun _ => [].

Definition cosine_1d (u v : list Q) : Q :=
  match u, v with
  | [a], [b] =>
      if Qltb 0 (a * b) then 1 else if Qltb (a * b) 0 then -1 else 0
  | _, _ => 0
  end.

Definition encode_same : string -> list Q := fun _ => [1].

(** The job profile on one side of the axis, everything else on the other. *)
Definition encode_opposed (job_profile : string) : string -> list Q :=
  fun t => if String.eqb t job_profile then [1] else [-1].

Definition sample_job : job :=
  {| job_title := "Engineer";
     job_description := "5 years of experience";
     required_skills := "python";
     job_location := Some "Paris";
     salary_range := "";
     experience_required := "" |}.

Definition ada : candidate :=
  {| candidate_id := "c1"; full_name := "Ada"; email := "ada@example.org";
     current_position := "Chef"; years_experience := ""; skills := "";
     profile_summary := ""; location := "Lyon"; expected_salary := "" |}.

Definition bob : candidate :=
  {| candidate_id := "c2"; full_name := "Bob"; email := "bob@example.org";
     current_position := "Developer"; years_experience := "6";
     skills := "Python, SQL"; profile_summary := "6 years of experience";
     location := "Paris"; expected_salary := "90000" |}.



(** ** Claims as they are worded *)

(** The claim C2 as worded: one rule for every failure to get both
    coordinates. *)
Definition full_fallback_on_any_failure : Prop :=
  forall (W : Type) (geocode : string -> W -> geo_outcome * W)
         (geodesic : Q * Q -> Q * Q -> option Q) (c j : string) (w : W),
    plain_locations c j ->
    ~ coordinates_for_both geocode c j w ->
    Text.lower c <> Text.lower j -> shares_token c j ->
    fst (calculate_location_score W geocode geodesic (Some c) (Some j) w) = 0.7.

(** The claim C3 as worded: every percentage within [0,100], whatever the
    embeddings. *)
Definition all_percentages_bounded : Prop :=
  forall (W : Type) geocode geodesic nlp_ents encode cosine_similarity
         (j : job) (cands : list candidate) (top_n : Z) (w : W) out w',
    find_matches W geocode geodesic nlp_ents encode cosine_similarity
      j cands top_n w = Some (out, w') ->
    forall m, m ∈ out ->
      0 <= match_percentage m <= 100 /\
      0 <= skills_match m <= 100 /\
      0 <= experience_match m <= 100 /\
      0 <= location_match m <= 100.

(** The claim C6 as worded: on every text the result is a non-negative
    integer. *)
Definition always_a_non_negative_integer : Prop :=
  forall text, exists n, extract_experience_years text = Some n /\ (0 <= n)%Z.

(** * The rest of the engine and the input validation *)

(** ** Skill recommendations ([get_skill_recommendations]) *)

Definition web_frameworks : list string :=
  ["django"; "flask"; "react"; "angular"; "spring"].

Definition data_tools : list string :=
  ["tensorflow"; "pytorch"; "pandas"; "scikit-learn"].

(** [any(skill in current for skill in wanted)] *)
Definition has_any (wanted current : list string) : bool :=
  existsb (fun skill => bool_decide (skill ∈ current)) wanted.

(** [[s for s in pool if s not in current]] *)
Definition lacking (pool current : list string) : list string :=
  filter (fun s => s ∉ current) pool.

(** The proposals gathered before de-duplication. *)
Definition proposals (current_skills : list string) : list string :=
  let recommendations := [] in
  let recommendations :=
    if has_any ["python"; "java"; "javascript"] current_skills
    then (recommendations ++ lacking web_frameworks current_skills)%list
    else recommendations in
  let recommendations :=
    if has_any ["python"; "r"; "sql"] current_skills
    then (recommendations ++ lacking data_tools current_skills)%list
    else recommendations in
  recommendations.

Section Recommendations.

Variable nlp_ents : string -> list (string * string).
(** The order in which [list(set(l))] lists a set; Python leaves it open. *)
Variable set_order : gset string -> list string.

(** [get_skill_recommendations]; [job_market_data] is not read by the
    source, and neither is its [all_skills]. *)
Definition get_skill_recommendations (candidate_data : candidate)
  : list string :=
  let current_skills :=
    extract_skills nlp_ents
      (skills candidate_data +:+ " " +:+ profile_summary candidate_data) in
  let recommendations := proposals current_skills in
  take 5 (set_order (list_to_set recommendations)).

End Recommendations.

(** ** Input validation of [candidate_registration.py] *)

Module Registration.
Import Re.

Definition is_lower_alpha (c : ascii) : bool :=
  ((97 <=? Text.code c) && (Text.code c <=? 122))%N.

(** [[a-zA-Z]] *)
Definition is_alpha (c : ascii) : bool := Text.is_upper c || is_lower_alpha c.

(** [[a-zA-Z0-9]] *)
Definition is_alnum (c : ascii) : bool := is_alpha c || Text.is_digit c.

(** [[a-zA-Z0-9_]] *)
Definition word_char (c : ascii) : bool := is_alnum c || Ascii.eqb c "_".

(** [[a-zA-Z0-9._%+-]] *)
Definition local_char (c : ascii) : bool :=
  is_alnum c || Ascii.eqb c "." || Ascii.eqb c "_" || Ascii.eqb c "%"
  || Ascii.eqb c "+" || Ascii.eqb c "-".

(** [[a-zA-Z0-9.-]] *)
Definition domain_char (c : ascii) : bool :=
  is_alnum c || Ascii.eqb c "." || Ascii.eqb c "-".

(** A class repeated exactly [n] times. *)
Fixpoint exactly (n : nat) (p : ascii -> bool) : regex :=
  match n with
  | O => Eps
  | S n' => Seq (Chr p) (exactly n' p)
  end.

(** A class repeated at most [n] times, as many as possible first. *)
Fixpoint at_most (n : nat) (p : ascii -> bool) : regex :=
  match n with
  | O => Eps
  | S n' => Opt (Seq (Chr p) (at_most n' p))
  end.

(** The body of the username pattern: a word character, 3 to 20 times. *)
Definition username_pattern : regex :=
  Seq (exactly 3 word_char) (at_most 17 word_char).

(** The body of the email pattern: local part, "@", domain, a dot and at
    least two letters. *)
Definition email_pattern : regex :=
  seqs [plus local_char; one "@"; plus domain_char; one ".";
        exactly 2 is_alpha; Rep true is_alpha].

(** Where the dollar anchor holds: at the end of the string, or in front
    of a newline that ends it. *)
Definition at_end (rest : string) : bool :=
  match rest with
  | EmptyString => true
  | String c EmptyString => Ascii.eqb c "010"
  | _ => false
  end.

(** [re.match] of a pattern closed by the dollar anchor [is not None]: some
    way of matching the body stops where the anchor holds. (The caret at
    the front adds nothing to [re.match].) *)
Definition full_match (body : regex) (s : string) : bool :=
  existsb (fun st => at_end (fst st)) (run body s ∅).

Definition _validate_email (email : string) : bool :=
  full_match email_pattern email.

Definition _validate_username (username : string) : bool :=
  full_match username_pattern username.

End Registration.

(** ** Notions used in the further statements *)

(** No character of [s] is a decimal digit. *)
Definition no_digit (s : string) : Prop :=
  Text.all_chars (fun c => negb (Text.is_digit c)) s = true.

(** [s] is empty or starts with something other than a digit. *)
Definition ends_number (s : string) : Prop :=
  match s with
  | EmptyString => True
  | String c _ => Text.is_digit c = false
  end.

(** A separator between two numbers of a salary range: not empty, without
    a digit and without a newline. *)
Definition separator (s : string) : Prop :=
  s <> EmptyString /\
  Text.all_chars (fun c => negb (Text.is_digit c) && Re.dot c) s = true.

(** The score that the salary rule gives to three amounts. *)
Definition salary_rule (min_salary max_salary candidate_salary : Z) : Q :=
  if (min_salary <=? candidate_salary)%Z && (candidate_salary <=? max_salary)%Z
  then 1
  else if (candidate_salary <? min_salary)%Z
  then inject_Z candidate_salary / inject_Z min_salary
  else inject_Z max_salary / inject_Z candidate_salary.

(** The pattern [r], which has no group, matches at the head of an input
    exactly the strings of [L], in every way the input can be cut. *)
Definition recognises (r : Re.regex) (L : string -> Prop) : Prop :=
  forall s cs s' cs',
    (s', cs') ∈ Re.run r s cs <->
    cs' = cs /\ exists u, s = u +:+ s' /\ L u.

(** Four common ways of writing years of experience after the number. *)
Definition experience_phrases : list string :=
  [" years of experience"; "+ years of experience";
   " years experience"; "+ years experience"].

(** A geocoder that knows two towns, and a distance between them. *)
Definition geocoder_two_towns : string -> unit -> geo_outcome * unit :=
  fun query w =>
    if String.eqb query "Paris" then (GeoFound 48.86 2.35, w)
    else if String.eqb query "Lyon" then (GeoFound 45.76 4.84, w)
    else (GeoNone, w).

Definition distance_392 : Q * Q -> Q * Q -> option Q := fun _ _ => Some 392.

Definition remote_job : job :=
  {| job_title := "Engineer"; job_description := "";
     required_skills := "python"; job_location := Some "Remote (EU)";
     salary_range := ""; experience_required := "" |}.

(** A proposal of [get_skill_recommendations] for the skills [current]:
    a framework or a tool that is not held, with a skill that calls for
    it. *)
Definition proposed (current : list string) (s : string) : Prop :=
  (s ∉ current) /\
  ((s ∈ web_frameworks /\
    exists t, t ∈ ["python"; "java"; "javascript"] /\ t ∈ current) \/
   (s ∈ data_tools /\
    exists t, t ∈ ["python"; "r"; "sql"] /\ t ∈ current)).

(** [s] is a skill of the vocabulary. *)
Definition in_vocabulary (s : string) : Prop :=
  exists category l, (category, l) ∈ tech_skills /\ s ∈ l.

(** [s] is the lowercased text of an entity with one of the three labels. *)
Definition from_entity (nlp_ents : string -> list (string * string))
    (text s : string) : Prop :=
  exists ent label,
    (ent, label) ∈ nlp_ents text /\ label ∈ ["ORG"; "PRODUCT"; "TECHNOLOGY"] /\
    s = Text.lower ent.

(** * Properties *)

(** ** The matcher: what a capture of a number can hold *)

Module ReFacts.
Import Re ReSpec.

Lemma append_nil (s : string) : EmptyString +:+ s = s.
Proof. reflexivity. Qed.

Lemma append_cons (c : ascii) (u s : string) :
  String c u +:+ s = String c (u +:+ s).
Proof. reflexivity. Qed.

Lemma length_append_ge (u s : string) :
  (String.length s <= String.length (u +:+ s))%nat.
Proof.
  induction u as [|c u IH]; [rewrite append_nil; lia|].
  rewrite append_cons. simpl. lia.
Qed.

Lemma take_str_app (u s : string) :
  Text.take_str (String.length (u +:+ s) - String.length s) (u +:+ s) = u.
Proof.
  induction u as [|c u IH].
  - rewrite append_nil, Nat.sub_diag. destruct s; reflexivity.
  - rewrite append_cons. simpl String.length.
    pose proof (length_append_ge u s).
    replace (S (String.length (u +:+ s)) - String.length s)%nat
      with (S (String.length (u +:+ s) - String.length s)) by lia.
    simpl. f_equal. exact IH.
Qed.

(** Every alternative of a starred class leaves a suffix of the input and
    has consumed characters of the class only. *)
Lemma rep_split g p s s' :
  s' ∈ rep g p s ->
  exists u, s = u +:+ s' /\ Text.all_chars p u = true.
Proof.
  revert s'. induction s as [|c s IH]; simpl; intros s' Hin.
  - apply list_elem_of_singleton in Hin. subst. exists EmptyString. auto.
  - destruct (p c) eqn:Hp.
    + assert (s' = String c s \/ s' ∈ rep g p s) as [->|Hin'].
      { destruct g.
        - apply elem_of_app in Hin as [H|H]; [right; exact H|].
          apply list_elem_of_singleton in H. left; exact H.
        - apply elem_of_cons in Hin as [H|H]; [left|right]; exact H. }
      * exists EmptyString. auto.
      * destruct (IH _ Hin') as (u & -> & Hu).
        exists (String c u). rewrite append_cons. simpl. rewrite Hp, Hu. auto.
    + apply list_elem_of_singleton in Hin. subst. exists EmptyString. auto.
Qed.

(** A group around [\d+] captures a numeral and leaves the other captures. *)
Lemma run_plus_digit s cs s' cs' :
  (s', cs') ∈ run (plus digit) s cs ->
  cs' = cs /\ numeral (consumed s s').
Proof.
  unfold plus. simpl. destruct s as [|c s]; simpl.
  - intros H. inversion H.
  - destruct (digit c) eqn:Hd; simpl; [|intros H; inversion H].
    rewrite app_nil_r. intros Hin.
    apply list_elem_of_fmap in Hin as (s1 & Heq & Hin).
    injection Heq as -> ->. split; [reflexivity|].
    destruct (rep_split _ _ _ _ Hin) as (u & -> & Hu).
    unfold consumed.
    rewrite <- append_cons, take_str_app. split; [discriminate|].
    simpl. unfold digit in Hd. rewrite Hd. exact Hu.
Qed.

Lemma run_numeral_caps r :
  numeric_groups r ->
  forall s cs s' cs',
    numeral_caps cs -> (s', cs') ∈ run r s cs -> numeral_caps cs'.
Proof.
  induction r as [|p|r1 IH1 r2 IH2|r IH|g p|n r IH]; simpl; intros Hr s cs s' cs' Hcs Hin.
  - apply list_elem_of_singleton in Hin. injection Hin as -> ->. exact Hcs.
  - destruct s as [|c s]; [inversion Hin|].
    destruct (p c); [|inversion Hin].
    apply list_elem_of_singleton in Hin. injection Hin as -> ->. exact Hcs.
  - destruct Hr as [Hr1 Hr2].
    apply list_elem_of_In, in_flat_map in Hin as ([s1 cs1] & H1 & H2).
    apply list_elem_of_In in H1, H2. simpl in H2.
    eapply IH2; [exact Hr2| |exact H2]. eapply IH1; eauto.
  - apply elem_of_app in Hin as [Hin|Hin].
    + eapply IH; eauto.
    + apply list_elem_of_singleton in Hin. injection Hin as -> ->. exact Hcs.
  - apply list_elem_of_fmap in Hin as (s1 & Heq & _).
    injection Heq as -> ->. exact Hcs.
  - subst r.
    apply list_elem_of_fmap in Hin as ([s1 cs1] & Heq & Hin).
    simpl in Heq. injection Heq as -> ->.
    apply run_plus_digit in Hin as [-> Hnum].
    apply map_Forall_insert_2; assumption.
Qed.

Lemma run_keeps_bound r n :
  forall s cs s' cs',
    is_Some (cs !! n) -> (s', cs') ∈ run r s cs -> is_Some (cs' !! n).
Proof.
  induction r as [|p|r1 IH1 r2 IH2|r IH|g p|m r IH]; simpl; intros s cs s' cs' Hcs Hin.
  - apply list_elem_of_singleton in Hin. injection Hin as -> ->. exact Hcs.
  - destruct s as [|c s]; [inversion Hin|].
    destruct (p c); [|inversion Hin].
    apply list_elem_of_singleton in Hin. injection Hin as -> ->. exact Hcs.
  - apply list_elem_of_In, in_flat_map in Hin as ([s1 cs1] & H1 & H2).
    apply list_elem_of_In in H1, H2. simpl in H2.
    eapply IH2; [|exact H2]. eapply IH1; eauto.
  - apply elem_of_app in Hin as [Hin|Hin].
    + eapply IH; eauto.
    + apply list_elem_of_singleton in Hin. injection Hin as -> ->. exact Hcs.
  - apply list_elem_of_fmap in Hin as (s1 & Heq & _).
    injection Heq as -> ->. exact Hcs.
  - apply list_elem_of_fmap in Hin as ([s1 cs1] & Heq & Hin).
    simpl in Heq. injection Heq as -> ->.
    destruct (decide (m = n)) as [->|Hne].
    + rewrite lookup_insert_eq. eauto.
    + rewrite lookup_insert_ne by exact Hne. eapply IH; eauto.
Qed.

Lemma run_binds r n :
  binds n r = true ->
  forall s cs s' cs', (s', cs') ∈ run r s cs -> is_Some (cs' !! n).
Proof.
  induction r as [|p|r1 IH1 r2 IH2|r IH|g p|m r IH]; simpl; intros Hb s cs s' cs' Hin;
    try discriminate.
  - apply list_elem_of_In, in_flat_map in Hin as ([s1 cs1] & H1 & H2).
    apply list_elem_of_In in H1, H2. simpl in H2.
    apply orb_true_iff in Hb as [Hb|Hb].
    + eapply run_keeps_bound; [|exact H2]. eapply IH1; eauto.
    + eapply IH2; eauto.
  - apply list_elem_of_fmap in Hin as ([s1 cs1] & Heq & Hin).
    simpl in Heq. injection Heq as -> ->.
    apply orb_true_iff in Hb as [Hb|Hb].
    + apply Nat.eqb_eq in Hb. subst. rewrite lookup_insert_eq. eauto.
    + destruct (decide (m = n)) as [->|Hne].
      * rewrite lookup_insert_eq. eauto.
      * rewrite lookup_insert_ne by exact Hne. eapply IH; eauto.
Qed.

Lemma search_run_within r t cs :
  search r t = Some cs ->
  exists s s', (String.length s <= String.length t)%nat /\
               (s', cs) ∈ run r s ∅.
Proof.
  induction t as [|c t IH]; simpl; unfold match_here.
  - destruct (run r EmptyString ∅) as [|[s' cs'] l] eqn:E; [discriminate|].
    simpl. intros [= <-]. exists EmptyString, s'. rewrite E.
    split; [reflexivity|left].
  - destruct (run r (String c t) ∅) as [|[s' cs'] l] eqn:E.
    + intros H. destruct (IH H) as (s & s' & Hlen & Hin).
      exists s, s'. split; [lia|exact Hin].
    + simpl. intros [= <-]. exists (String c t), s'. rewrite E.
      split; [reflexivity|left].
Qed.

Lemma search_run r t cs :
  search r t = Some cs -> exists s s', (s', cs) ∈ run r s ∅.
Proof.
  intros H. destruct (search_run_within _ _ _ H) as (s & s' & _ & Hin).
  exists s, s'. exact Hin.
Qed.

(** *** Captures are pieces of the text *)

Lemma length_take_str n s :
  (String.length (Text.take_str n s) <= String.length s)%nat.
Proof.
  revert s. induction n as [|n IH]; intros [|c s]; simpl; try lia.
  specialize (IH s). lia.
Qed.

Lemma length_lower s : String.length (Text.lower s) = String.length s.
Proof. induction s as [|c s IH]; simpl; [reflexivity|]. rewrite IH. reflexivity. Qed.

Lemma run_length r :
  forall s cs s' cs',
    (s', cs') ∈ run r s cs -> (String.length s' <= String.length s)%nat.
Proof.
  induction r as [|p|r1 IH1 r2 IH2|r IH|g p|n r IH]; simpl; intros s cs s' cs' Hin.
  - apply list_elem_of_singleton in Hin. injection Hin as -> ->. lia.
  - destruct s as [|c s]; [inversion Hin|].
    destruct (p c); [|inversion Hin].
    apply list_elem_of_singleton in Hin. injection Hin as -> ->. simpl. lia.
  - apply list_elem_of_In, in_flat_map in Hin as ([s1 cs1] & H1 & H2).
    apply list_elem_of_In in H1, H2. simpl in H2.
    specialize (IH1 _ _ _ _ H1). specialize (IH2 _ _ _ _ H2). lia.
  - apply elem_of_app in Hin as [Hin|Hin].
    + eapply IH; eauto.
    + apply list_elem_of_singleton in Hin. injection Hin as -> ->. lia.
  - apply list_elem_of_fmap in Hin as (s1 & Heq & Hin).
    injection Heq as -> ->.
    destruct (rep_split _ _ _ _ Hin) as (u & -> & _). apply length_append_ge.
  - apply list_elem_of_fmap in Hin as ([s1 cs1] & Heq & Hin).
    simpl in Heq. injection Heq as -> ->. eapply IH; eauto.
Qed.

(** No capture is longer than the input that the matcher was started on. *)
Lemma run_short_caps (L : nat) r :
  forall s cs s' cs',
    (String.length s <= L)%nat ->
    map_Forall (fun _ v => (String.length v <= L)%nat) cs ->
    (s', cs') ∈ run r s cs ->
    map_Forall (fun _ v => (String.length v <= L)%nat) cs'.
Proof.
  induction r as [|p|r1 IH1 r2 IH2|r IH|g p|n r IH]; simpl;
    intros s cs s' cs' Hlen Hcs Hin.
  - apply list_elem_of_singleton in Hin. injection Hin as -> ->. exact Hcs.
  - destruct s as [|c s]; [inversion Hin|].
    destruct (p c); [|inversion Hin].
    apply list_elem_of_singleton in Hin. injection Hin as -> ->. exact Hcs.
  - apply list_elem_of_In, in_flat_map in Hin as ([s1 cs1] & H1 & H2).
    apply list_elem_of_In in H1, H2. simpl in H2.
    pose proof (run_length _ _ _ _ _ H1) as Hl1. simpl in Hl1.
    eapply IH2; [|eapply IH1; eauto|exact H2]. simpl. lia.
  - apply elem_of_app in Hin as [Hin|Hin].
    + eapply IH; eauto.
    + apply list_elem_of_singleton in Hin. injection Hin as -> ->. exact Hcs.
  - apply list_elem_of_fmap in Hin as (s1 & Heq & _).
    injection Heq as -> ->. exact Hcs.
  - apply list_elem_of_fmap in Hin as ([s1 cs1] & Heq & Hin).
    simpl in Heq. injection Heq as -> ->.
    apply map_Forall_insert_2; [|eapply IH; eauto].
    unfold consumed. pose proof (length_take_str
      (String.length s - String.length s1) s). lia.
Qed.

Lemma search_group_short r n t cs :
  search r t = Some cs ->
  (String.length (group cs n) <= String.length t)%nat.
Proof.
  intros Hs. apply search_run_within in Hs as (s & s' & Hlen & Hin).
  assert (map_Forall (fun _ v => (String.length v <= String.length t)%nat) cs)
    as Hcaps.
  { eapply run_short_caps; [exact Hlen| |exact Hin]. apply map_Forall_empty. }
  unfold group. destruct (cs !! n) as [v|] eqn:Hv; simpl; [|lia].
  exact (Hcaps _ _ Hv).
Qed.

(** The group of a found pattern holds a numeral. *)
Lemma search_group_numeral r n t cs :
  numeric_groups r -> binds n r = true ->
  search r t = Some cs -> numeral (group cs n).
Proof.
  intros Hr Hb Hs. apply search_run in Hs as (s & s' & Hin).
  assert (numeral_caps cs) as Hcaps.
  { eapply run_numeral_caps; [exact Hr| |exact Hin]. apply map_Forall_empty. }
  destruct (run_binds _ _ Hb _ _ _ _ Hin) as [v Hv].
  unfold group. rewrite Hv. simpl. exact (Hcaps _ _ Hv).
Qed.

Lemma digits_value_nonneg s :
  Text.all_chars Text.is_digit s = true ->
  forall acc, (0 <= acc)%Z -> (0 <= Text.digits_value acc s)%Z.
Proof.
  induction s as [|c s IH]; simpl; intros Hd acc Hacc; [exact Hacc|].
  apply andb_true_iff in Hd as [Hc Hs]. apply IH; [exact Hs|].
  unfold Text.digit_value. unfold Text.is_digit in Hc.
  apply andb_true_iff in Hc as [H1 H2]. apply N.leb_le in H1. lia.
Qed.

(** [int] of a numeral within the limit is its value. *)
Lemma py_int_within v :
  numeral v -> within_int_limit v ->
  Text.py_int v = Some (Text.digits_value 0 v).
Proof.
  intros [Hne Hd] Hlen. unfold Text.py_int. destruct v as [|c v]; [congruence|].
  rewrite Hd.
  destruct (Nat.ltb_spec Text.int_max_str_digits (String.length (String c v)))
    as [Hlt|_]; [|reflexivity].
  unfold within_int_limit in Hlen. lia.
Qed.

(** [int] of a numeral beyond the limit raises. *)
Lemma py_int_beyond v :
  numeral v -> ~ within_int_limit v -> Text.py_int v = None.
Proof.
  intros [Hne Hd] Hlen. unfold Text.py_int. destruct v as [|c v]; [congruence|].
  rewrite Hd.
  destruct (Nat.ltb_spec Text.int_max_str_digits (String.length (String c v)))
    as [_|Hle]; [reflexivity|].
  exfalso. apply Hlen. exact Hle.
Qed.

(** What [int] returns is not negative. *)
Lemma py_int_not_negative v n : Text.py_int v = Some n -> (0 <= n)%Z.
Proof.
  unfold Text.py_int. destruct v as [|c v]; [discriminate|].
  destruct (Text.all_chars Text.is_digit (String c v)) eqn:Hd; [|discriminate].
  destruct (Nat.ltb _ _); [discriminate|]. intros [= <-].
  apply (digits_value_nonneg (String c v) Hd 0%Z). lia.
Qed.

(** [int] does not raise on a numeral within the limit, and the value is
    not negative. *)
Lemma py_int_numeral v :
  numeral v -> within_int_limit v ->
  exists n, Text.py_int v = Some n /\ (0 <= n)%Z.
Proof.
  intros Hn Hlen. exists (Text.digits_value 0 v).
  pose proof (py_int_within _ Hn Hlen) as H. split; [exact H|].
  exact (py_int_not_negative _ _ H).
Qed.

End ReFacts.

(** ** Experience extraction *)

Lemma patterns_numeric r :
  r ∈ Patterns.range_pattern :: Patterns.patterns ->
  ReSpec.numeric_groups r /\ ReSpec.binds 1 r = true.
Proof.
  intros Hin. repeat (apply elem_of_cons in Hin as [->|Hin]).
  all: try (split; [simpl; repeat split|reflexivity]).
  inversion Hin.
Qed.

Lemma first_match_in ps t cs :
  first_match ps t = Some cs -> exists p, p ∈ ps /\ Re.search p t = Some cs.
Proof.
  induction ps as [|p ps IH]; simpl; [discriminate|].
  destruct (Re.search p t) eqn:E.
  - intros [= <-]. exists p. split; [left|exact E].
  - intros H. destruct (IH H) as (q & Hq & Hs). exists q. split; [right|]; assumption.
Qed.

(** [first_match] returns the captures of the pattern of least index that
    is found. *)
Lemma first_match_least ps t i p cs :
  ps !! i = Some p -> Re.search p t = Some cs ->
  (forall j q, (j < i)%nat -> ps !! j = Some q -> Re.search q t = None) ->
  first_match ps t = Some cs.
Proof.
  revert i. induction ps as [|p0 ps IH]; intros i Hi Hs Hbefore; [discriminate|].
  destruct i as [|i]; simpl in *.
  - injection Hi as ->. rewrite Hs. reflexivity.
  - rewrite (Hbefore 0%nat p0 ltac:(lia) eq_refl).
    apply (IH i); [exact Hi|exact Hs|].
    intros j q Hj Hq. apply (Hbefore (S j) q); [lia|exact Hq].
Qed.

Lemma first_match_none ps t :
  (forall p, p ∈ ps -> Re.search p t = None) -> first_match ps t = None.
Proof.
  induction ps as [|p ps IH]; simpl; intros H; [reflexivity|].
  rewrite (H p) by left. apply IH. intros q Hq. apply H. right. exact Hq.
Qed.

(** Letter case plays no part: lowering undoes capitalising. *)
Lemma lower_upper_char (c : ascii) :
  Text.lower_char (upper_char c) = Text.lower_char c.
Proof. destruct c as [[] [] [] [] [] [] [] []]; reflexivity. Qed.

Lemma lower_upper (s : string) : Text.lower (upper s) = Text.lower s.
Proof.
  induction s as [|c s IH]; simpl; [reflexivity|].
  rewrite lower_upper_char, IH. reflexivity.
Qed.

(** A capture of a found pattern is no longer than the text. *)
Lemma group_within_text r n text cs :
  within_int_limit text ->
  Re.search r (Text.lower text) = Some cs ->
  within_int_limit (Re.group cs n).
Proof.
  unfold within_int_limit. intros Hlen Hs.
  pose proof (ReFacts.search_group_short r n _ _ Hs) as H.
  rewrite ReFacts.length_lower in H. lia.
Qed.

(** What [extract_experience_years] returns is not negative. *)
Lemma extract_experience_years_not_negative text n :
  extract_experience_years text = Some n -> (0 <= n)%Z.
Proof.
  unfold extract_experience_years.
  destruct (first_match Patterns.patterns (Text.lower text)) as [cs|] eqn:E.
  - apply ReFacts.py_int_not_negative.
  - destruct (Re.search Patterns.range_pattern (Text.lower text)) as [cs|] eqn:Hs.
    + destruct (Text.py_int (Re.group cs 1)) as [n1|] eqn:H1; [|discriminate].
      destruct (Text.py_int (Re.group cs 2)) as [n2|] eqn:H2; [|discriminate].
      simpl. intros [= <-].
      apply ReFacts.py_int_not_negative in H1, H2.
      apply Z.div_pos; lia.
    + intros [= <-]. lia.
Qed.

(** [extract_experience_years] returns on a text within the limit of
    [int]. *)
Lemma extract_experience_years_returns text :
  within_int_limit text ->
  exists n, extract_experience_years text = Some n /\ (0 <= n)%Z.
Proof.
  intros Hlen.
  assert (exists n, extract_experience_years text = Some n) as [n Hn].
  { unfold extract_experience_years.
    destruct (first_match Patterns.patterns (Text.lower text)) as [cs|] eqn:E.
    - apply first_match_in in E as (p & Hp & Hs).
      destruct (patterns_numeric p) as [Hn Hb]; [right; exact Hp|].
      destruct (ReFacts.py_int_numeral (Re.group cs 1)) as (n & Hint & _).
      { eapply ReFacts.search_group_numeral; eauto. }
      { eapply group_within_text; eauto. }
      exists n. exact Hint.
    - destruct (Re.search Patterns.range_pattern (Text.lower text)) as [cs|] eqn:Hs.
      + destruct (patterns_numeric Patterns.range_pattern) as [Hn Hb]; [left|].
        destruct (ReFacts.py_int_numeral (Re.group cs 1)) as (n1 & -> & _).
        { eapply ReFacts.search_group_numeral; eauto. }
        { eapply group_within_text; eauto. }
        destruct (ReFacts.py_int_numeral (Re.group cs 2)) as (n2 & -> & _).
        { eapply ReFacts.search_group_numeral; eauto. }
        { eapply group_within_text; eauto. }
        simpl. eexists; reflexivity.
      + exists 0%Z. reflexivity. }
  exists n. split; [exact Hn|].
  exact (extract_experience_years_not_negative _ _ Hn).
Qed.

(** C6, amended. [extract_experience_years] works on the lowercased text,
    so the letter case of the text plays no part. The first of the four
    single-number patterns, in their order in the list, that is found
    decides the result: [int] of its group 1, which is the integer that the
    captured digits write when they are at most 4300, and a [ValueError]
    that the function lets through when they are more. Only when none of
    the four is found is the range pattern tried, and the result is then
    the floor of the average of its two integers, or the same error when
    either has more than 4300 digits. When nothing is found the result is
    0. Whatever the function returns is a non-negative integer, and it
    returns on every text of at most 4300 characters. *)
Theorem extract_experience_years_spec (text : string) :
  let t := Text.lower text in
  Patterns.patterns =
    [Patterns.years_experience; Patterns.experience_years;
     Patterns.years_professional; Patterns.yrs_exp] /\
  (forall i p cs,
      Patterns.patterns !! i = Some p ->
      Re.search p t = Some cs ->
      (forall j q, (j < i)%nat -> Patterns.patterns !! j = Some q ->
                   Re.search q t = None) ->
      extract_experience_years text = Text.py_int (Re.group cs 1) /\
      ReSpec.numeral (Re.group cs 1) /\
      (within_int_limit (Re.group cs 1) ->
       extract_experience_years text
       = Some (Text.digits_value 0 (Re.group cs 1))) /\
      (~ within_int_limit (Re.group cs 1) ->
       extract_experience_years text = None)) /\
  (forall cs,
      (forall p, p ∈ Patterns.patterns -> Re.search p t = None) ->
      Re.search Patterns.range_pattern t = Some cs ->
      ReSpec.numeral (Re.group cs 1) /\ ReSpec.numeral (Re.group cs 2) /\
      (within_int_limit (Re.group cs 1) -> within_int_limit (Re.group cs 2) ->
       extract_experience_years text
       = Some ((Text.digits_value 0 (Re.group cs 1)
                + Text.digits_value 0 (Re.group cs 2)) `div` 2)%Z) /\
      (~ within_int_limit (Re.group cs 1) \/ ~ within_int_limit (Re.group cs 2) ->
       extract_experience_years text = None)) /\
  ((forall p, p ∈ Patterns.patterns -> Re.search p t = None) ->
   Re.search Patterns.range_pattern t = None ->
   extract_experience_years text = Some 0%Z) /\
  (forall n, extract_experience_years text = Some n -> (0 <= n)%Z) /\
  (within_int_limit text -> exists n, extract_experience_years text = Some n) /\
  extract_experience_years (upper text) = extract_experience_years text.
Proof.
  intros t. split; [reflexivity|].
  split; [|split; [|split; [|split; [|split]]]].
  - intros i p cs Hi Hs Hbefore.
    assert (p ∈ Patterns.patterns) as Hp by (eapply list_elem_of_lookup_2; eauto).
    destruct (patterns_numeric p) as [Hn Hb]; [right; exact Hp|].
    assert (ReSpec.numeral (Re.group cs 1)) as Hnum.
    { eapply ReFacts.search_group_numeral; eauto. }
    assert (extract_experience_years text = Text.py_int (Re.group cs 1)) as E.
    { unfold extract_experience_years. fold t.
      rewrite (first_match_least _ _ _ _ _ Hi Hs Hbefore). reflexivity. }
    split; [exact E|]. split; [exact Hnum|]. split; intros Hlen; rewrite E.
    + apply ReFacts.py_int_within; assumption.
    + apply ReFacts.py_int_beyond; assumption.
  - intros cs Hnone Hs.
    destruct (patterns_numeric Patterns.range_pattern) as [Hn Hb]; [left|].
    assert (ReSpec.numeral (Re.group cs 1)) as Hnum1.
    { eapply ReFacts.search_group_numeral; eauto. }
    assert (ReSpec.numeral (Re.group cs 2)) as Hnum2.
    { eapply ReFacts.search_group_numeral; eauto. }
    split; [exact Hnum1|]. split; [exact Hnum2|].
    unfold extract_experience_years. fold t.
    rewrite (first_match_none _ _ Hnone), Hs. split.
    + intros H1 H2.
      rewrite (ReFacts.py_int_within _ Hnum1 H1),
              (ReFacts.py_int_within _ Hnum2 H2). reflexivity.
    + intros [H|H].
      * rewrite (ReFacts.py_int_beyond _ Hnum1 H). reflexivity.
      * rewrite (ReFacts.py_int_beyond _ Hnum2 H).
        destruct (Text.py_int (Re.group cs 1)); reflexivity.
  - intros Hnone Hs. unfold extract_experience_years. fold t.
    rewrite (first_match_none _ _ Hnone), Hs. reflexivity.
  - apply extract_experience_years_not_negative.
  - intros Hlen.
    destruct (extract_experience_years_returns _ Hlen) as (n & Hn & _).
    exists n. exact Hn.
  - unfold extract_experience_years. rewrite lower_upper. reflexivity.
Qed.

(** ** Skills matching *)

Lemma skill_set_nonempty (l : list string) : l <> [] -> skill_set l <> ∅.
Proof.
  destruct l as [|x l]; [congruence|]. intros _ H.
  assert (Text.lower x ∈ skill_set (x :: l)) as Hin.
  { unfold skill_set. apply elem_of_list_to_set. simpl. left. }
  rewrite H in Hin. exact (not_elem_of_empty _ Hin).
Qed.

Lemma truthy_list_Some {A} (l : list A) :
  truthy_list (Some l) = true <-> l <> [].
Proof. destruct l; simpl; split; congruence. Qed.

Lemma calculate_skills_match_sets c r :
  truthy_list c = true -> truthy_list r = true ->
  calculate_skills_match c r
  = match_ratio (skill_set (items c)) (skill_set (items r)).
Proof.
  intros Hc Hr. unfold calculate_skills_match. rewrite Hc, Hr. reflexivity.
Qed.

Lemma match_ratio_nonempty cs rs :
  rs <> ∅ -> match_ratio cs rs = overlap_ratio cs rs.
Proof.
  intros Hne. unfold match_ratio.
  destruct (decide (rs = ∅)); [contradiction|reflexivity].
Qed.

Lemma calculate_skills_match_ratio c r :
  c <> [] -> r <> [] ->
  calculate_skills_match (Some c) (Some r)
  = overlap_ratio (skill_set c) (skill_set r).
Proof.
  intros Hc Hr.
  rewrite calculate_skills_match_sets by (apply truthy_list_Some; assumption).
  apply match_ratio_nonempty, skill_set_nonempty. exact Hr.
Qed.

Lemma Qdiv_nat_le_1 (a b : nat) :
  (a <= b)%nat -> (0 < b)%nat ->
  0 <= inject_Z (Z.of_nat a) / inject_Z (Z.of_nat b) <= 1.
Proof.
  intros Hab Hb.
  assert (0 < inject_Z (Z.of_nat b)) as Hpos.
  { change 0 with (inject_Z 0). rewrite <- Zlt_Qlt. lia. }
  assert (0 <= inject_Z (Z.of_nat a)) as Ha.
  { change 0 with (inject_Z 0). rewrite <- Zle_Qle. lia. }
  assert (inject_Z (Z.of_nat a) <= inject_Z (Z.of_nat b)) as Hle.
  { rewrite <- Zle_Qle. lia. }
  split.
  - apply Qle_shift_div_l; [exact Hpos|]. lra.
  - apply Qle_shift_div_r; [exact Hpos|]. lra.
Qed.

Lemma size_pos_of_nonempty (b : gset string) : b <> ∅ -> (0 < size b)%nat.
Proof.
  intros Hb. destruct (size b) eqn:E; [|lia].
  exfalso. apply Hb. apply leibniz_equiv. apply size_empty_iff. exact E.
Qed.

Lemma overlap_ratio_range (a b : gset string) :
  b <> ∅ -> 0 <= overlap_ratio a b <= 1.
Proof.
  intros Hb. apply Qdiv_nat_le_1.
  - apply subseteq_size. set_solver.
  - apply size_pos_of_nonempty. exact Hb.
Qed.

Lemma match_ratio_range cs rs : 0 <= match_ratio cs rs <= 1.
Proof.
  unfold match_ratio. destruct (decide (rs = ∅)) as [He|Hne]; [lra|].
  apply (overlap_ratio_range cs rs Hne).
Qed.

(** The skills score always lies in [0,1]. *)
Lemma calculate_skills_match_range c r :
  0 <= calculate_skills_match c r <= 1.
Proof.
  unfold calculate_skills_match.
  destruct (negb (truthy_list c) || negb (truthy_list r)); [lra|].
  apply match_ratio_range.
Qed.

(** C7. [calculate_skills_match] returns 0.0 when either raw input is
    missing or empty. Otherwise it lowercases both inputs into sets and
    goes on with them: an empty required set gives 1.0, and any other
    required set gives the size of the intersection of the two sets over
    the size of the required set, which is at most 1.0 whatever else the
    candidate has. (A non-empty list never normalises to the empty set, so
    with lists the result in the second case is always the ratio.) *)
Theorem calculate_skills_match_spec
    (candidate_skills required_skills : option (list string)) :
  (truthy_list candidate_skills = false \/ truthy_list required_skills = false ->
   calculate_skills_match candidate_skills required_skills = 0.0) /\
  (truthy_list candidate_skills = true -> truthy_list required_skills = true ->
   let candidate_set := skill_set (items candidate_skills) in
   let required_set := skill_set (items required_skills) in
   calculate_skills_match candidate_skills required_skills
   = match_ratio candidate_set required_set /\
   match_ratio candidate_set ∅ = 1.0 /\
   required_set <> ∅ /\
   calculate_skills_match candidate_skills required_skills
   = inject_Z (Z.of_nat (size (candidate_set ∩ required_set)))
     / inject_Z (Z.of_nat (size required_set)) /\
   calculate_skills_match candidate_skills required_skills <= 1.0).
Proof.
  split.
  - intros [H|H]; unfold calculate_skills_match; rewrite H; simpl.
    + reflexivity.
    + rewrite orb_true_r. reflexivity.
  - intros Hc Hr candidate_set required_set.
    assert (required_set <> ∅) as Hne.
    { destruct required_skills as [r|]; [|discriminate Hr].
      apply skill_set_nonempty, truthy_list_Some, Hr. }
    split; [apply calculate_skills_match_sets; assumption|].
    split; [reflexivity|]. split; [exact Hne|].
    split.
    + rewrite calculate_skills_match_sets by assumption.
      apply (match_ratio_nonempty candidate_set required_set Hne).
    + pose proof (calculate_skills_match_range candidate_skills required_skills)
        as [_ H].
      lra.
Qed.

Lemma calculate_skills_match_spec_witness :
  calculate_skills_match (Some ["Python"; "SQL"; "aws"])
                         (Some ["python"; "sql"; "Docker"; "SQL"])
  == 2 # 3.
Proof.
  destruct (calculate_skills_match_spec
              (Some ["Python"; "SQL"; "aws"])
              (Some ["python"; "sql"; "Docker"; "SQL"])) as (_ & H).
  destruct (H eq_refl eq_refl) as (_ & _ & _ & -> & _).
  vm_compute. reflexivity.
Defined.

(** C8. With a non-empty required list, putting one more skill anywhere in
    the candidate's list never lowers the score when the skill (lowercased)
    is in the required set, and leaves the score as it is when the skill is
    not in the required set. *)
Theorem calculate_skills_match_monotonic
    (c1 c2 : list string) (skill : string) (required : list string) :
  required <> [] ->
  (Text.lower skill ∈ skill_set required ->
   calculate_skills_match (Some (c1 ++ c2)%list) (Some required)
   <= calculate_skills_match (Some (c1 ++ skill :: c2)%list) (Some required)) /\
  (Text.lower skill ∉ skill_set required ->
   calculate_skills_match (Some (c1 ++ skill :: c2)%list) (Some required)
   == calculate_skills_match (Some (c1 ++ c2)%list) (Some required)).
Proof.
  intros Hr.
  assert (skill_set (c1 ++ skill :: c2)%list
          = {[Text.lower skill]} ∪ skill_set (c1 ++ c2)%list) as Hset.
  { unfold skill_set. rewrite !map_app. simpl.
    rewrite !list_to_set_app_L. simpl. set_solver. }
  assert ((c1 ++ skill :: c2)%list <> []) as Hne by (destruct c1; discriminate).
  assert (0 < inject_Z (Z.of_nat (size (skill_set required)))) as Hpos.
  { change 0 with (inject_Z 0). rewrite <- Zlt_Qlt.
    pose proof (size_pos_of_nonempty _ (skill_set_nonempty _ Hr)). lia. }
  rewrite (calculate_skills_match_ratio _ _ Hne Hr), Hset.
  unfold overlap_ratio. split.
  - intros _. destruct (decide ((c1 ++ c2)%list = [])) as [He|Hc].
    + rewrite He. cbn [calculate_skills_match truthy_list negb orb].
      apply Qle_shift_div_l; [exact Hpos|].
      assert (0 <= inject_Z (Z.of_nat (size (({[Text.lower skill]} ∪ skill_set [])
                                              ∩ skill_set required)))).
      { change 0 with (inject_Z 0). rewrite <- Zle_Qle. lia. }
      lra.
    + rewrite (calculate_skills_match_ratio _ _ Hc Hr). unfold overlap_ratio.
      apply Qmult_le_compat_r.
      * rewrite <- Zle_Qle. apply Nat2Z.inj_le. apply subseteq_size. set_solver.
      * apply Qinv_le_0_compat. lra.
  - intros Hnot.
    assert (({[Text.lower skill]} ∪ skill_set (c1 ++ c2)%list) ∩ skill_set required
            = skill_set (c1 ++ c2)%list ∩ skill_set required) as -> by set_solver.
    destruct (decide ((c1 ++ c2)%list = [])) as [He|Hc].
    + rewrite He. cbn [calculate_skills_match truthy_list negb orb].
      assert (skill_set [] ∩ skill_set required = ∅) as -> by set_solver.
      rewrite size_empty. change (inject_Z (Z.of_nat 0)) with 0.
      unfold Qdiv. rewrite Qmult_0_l. reflexivity.
    + rewrite (calculate_skills_match_ratio _ _ Hc Hr). reflexivity.
Qed.

Lemma calculate_skills_match_monotonic_witness :
  calculate_skills_match (Some ["aws"; "go"]) (Some ["python"; "sql"])
  <= calculate_skills_match (Some ["aws"; "Python"; "go"]) (Some ["python"; "sql"]) /\
  calculate_skills_match (Some ["aws"; "rust"; "go"]) (Some ["python"; "sql"])
  == calculate_skills_match (Some ["aws"; "go"]) (Some ["python"; "sql"]).
Proof.
  split.
  - apply (calculate_skills_match_monotonic ["aws"] ["go"] "Python" ["python"; "sql"]).
    + discriminate.
    + vm_compute. reflexivity.
  - apply (calculate_skills_match_monotonic ["aws"] ["go"] "rust" ["python"; "sql"]).
    + discriminate.
    + intros H. vm_compute in H. discriminate H.
Defined.

(** ** Location scoring *)

Lemma truthy_str_Some s : truthy_str (Some s) = true <-> s <> EmptyString.
Proof. destruct s; simpl; split; congruence. Qed.

Lemma shares_token_existsb c j :
  existsb (fun part => Text.contains part (Text.lower j))
          (Text.split (Text.lower c)) = true <-> shares_token c j.
Proof.
  rewrite existsb_exists. unfold shares_token.
  split; intros (p & Hp & Hc); exists p; (split; [|exact Hc]);
    apply list_elem_of_In; exact Hp.
Qed.

Lemma calculate_location_score_plain {W} geocode geodesic c j (w : W) :
  plain_locations c j ->
  calculate_location_score W geocode geodesic (Some c) (Some j) w
  = match location_try W geocode geodesic c j w with
    | (Some score, w') => (score, w')
    | (None, w') => (simple_fallback c j, w')
    end.
Proof.
  intros (Hc & Hj & Hrc & Hrj). unfold calculate_location_score.
  apply truthy_str_Some in Hc, Hj. rewrite Hc, Hj. cbn [negb orb text_of].
  rewrite Hrc, Hrj. reflexivity.
Qed.

(** C2, as worded, fails: when the geocoder raises, a candidate in
    "New York" scores 0.3 for a job in "York City", although the token
    "york" occurs in the job location. *)
Lemma location_fallback_on_raise_counterexample :
  shares_token "New York" "York City" /\
  fst (calculate_location_score unit geocoder_down no_distance
         (Some "New York") (Some "York City") tt) = 0.3 /\
  ~ full_fallback_on_any_failure.
Proof.
  assert (shares_token "New York" "York City") as Htoken.
  { exists "york". split; [vm_compute; right; left|reflexivity]. }
  split; [exact Htoken|]. split; [reflexivity|].
  intros H.
  specialize (H unit geocoder_down no_distance "New York" "York City" tt).
  assert (0.3 = 0.7) as Habs; [|discriminate Habs].
  apply H.
  - repeat split; try discriminate; reflexivity.
  - intros (lat1 & lon1 & w1 & lat2 & lon2 & w2 & H1 & _). discriminate H1.
  - discriminate.
  - exact Htoken.
Qed.

(** C2, amended. For two locations that are present and do not mention
    remote work: when both geocoder calls return and at least one of them
    has no result, the score is 1.0 if the two strings are equal up to
    case, else 0.7 if some whitespace-delimited token of the lowercased
    candidate location occurs in the lowercased job location, else 0.3;
    when a geocoder call raises, the score is 1.0 if the two strings are
    equal up to case and 0.3 otherwise. *)
Theorem location_fallback_spec {W} (geocode : string -> W -> geo_outcome * W)
    (geodesic : Q * Q -> Q * Q -> option Q) (c j : string) (w : W) :
  plain_locations c j ->
  let score :=
    fst (calculate_location_score W geocode geodesic (Some c) (Some j) w) in
  (forall r1 w1 r2 w2,
      geocode c w = (r1, w1) -> geocode j w1 = (r2, w2) ->
      r1 <> GeoRaise -> r2 <> GeoRaise -> r1 = GeoNone \/ r2 = GeoNone ->
      (Text.lower c = Text.lower j -> score = 1.0) /\
      (Text.lower c <> Text.lower j -> shares_token c j -> score = 0.7) /\
      (Text.lower c <> Text.lower j -> ~ shares_token c j -> score = 0.3)) /\
  (geocoding_raises geocode c j w ->
   (Text.lower c = Text.lower j -> score = 1.0) /\
   (Text.lower c <> Text.lower j -> score = 0.3)).
Proof.
  intros Hplain score. subst score.
  rewrite (calculate_location_score_plain _ _ _ _ _ Hplain).
  unfold location_try. split.
  - intros r1 w1 r2 w2 H1 H2 Hr1 Hr2 Hnone. rewrite H1.
    assert (fst (let (loc2, w3) := geocode j w1 in
                 match loc2 with
                 | GeoRaise => (None, w3)
                 | _ => (Some (string_fallback c j), w3)
                 end) = Some (string_fallback c j)) as Hsecond.
    { rewrite H2. destruct r2; [congruence|reflexivity..]. }
    assert (forall q : Q, q = string_fallback c j ->
             (Text.lower c = Text.lower j -> q = 1.0) /\
             (Text.lower c <> Text.lower j -> shares_token c j -> q = 0.7) /\
             (Text.lower c <> Text.lower j -> ~ shares_token c j -> q = 0.3))
      as Hcases.
    { intros q ->. unfold string_fallback.
      destruct (String.eqb_spec (Text.lower c) (Text.lower j)) as [He|Hne].
      - repeat split; congruence.
      - destruct (existsb _ _) eqn:Hex.
        + apply shares_token_existsb in Hex. repeat split; tauto.
        + repeat split; try tauto. intros _ Hs. exfalso.
          apply shares_token_existsb in Hs. congruence. }
    apply Hcases.
    destruct r1 as [| |lat1 lon1]; [congruence| |].
    + rewrite H2. destruct r2; [congruence|reflexivity..].
    + destruct Hnone as [Hn|Hn]; [discriminate Hn|]. subst r2.
      rewrite H2. reflexivity.
  - assert (forall q : Q, q = simple_fallback c j ->
             (Text.lower c = Text.lower j -> q = 1.0) /\
             (Text.lower c <> Text.lower j -> q = 0.3)) as Hcases.
    { intros q ->. unfold simple_fallback.
      destruct (String.eqb_spec (Text.lower c) (Text.lower j)); split; congruence. }
    intros [(w1 & H1)|(r1 & w1 & w2 & H1 & Hr1 & H2)]; apply Hcases.
    + rewrite H1. reflexivity.
    + rewrite H1. destruct r1; [congruence| |]; rewrite H2; reflexivity.
Qed.

Lemma location_fallback_spec_witness :
  fst (calculate_location_score unit geocoder_blank no_distance
         (Some "New York") (Some "York City") tt) = 0.7 /\
  fst (calculate_location_score unit geocoder_down no_distance
         (Some "New York") (Some "York City") tt) = 0.3.
Proof.
  assert (plain_locations "New York" "York City") as Hplain.
  { repeat split; try discriminate; reflexivity. }
  split.
  - destruct (location_fallback_spec geocoder_blank no_distance
                "New York" "York City" tt Hplain) as [H _].
    destruct (H GeoNone tt GeoNone tt eq_refl eq_refl) as (_ & H7 & _);
      [discriminate|discriminate|left; reflexivity|].
    apply H7; [discriminate|].
    exists "york". split; [vm_compute; right; left|reflexivity].
  - destruct (location_fallback_spec geocoder_down no_distance
                "New York" "York City" tt Hplain) as [_ H].
    destruct H as [_ H3]; [left; exists tt; reflexivity|].
    apply H3. discriminate.
Defined.

Lemma string_fallback_values c j : string_fallback c j ∈ location_values.
Proof.
  unfold string_fallback, location_values.
  destruct (String.eqb _ _); [|destruct (existsb _ _)];
    rewrite !elem_of_cons; tauto.
Qed.

Lemma simple_fallback_values c j : simple_fallback c j ∈ location_values.
Proof.
  unfold simple_fallback, location_values.
  destruct (String.eqb _ _); rewrite !elem_of_cons; tauto.
Qed.

Lemma distance_band_values d : distance_band d ∈ location_values.
Proof.
  unfold distance_band, location_values.
  destruct (Qltb d 50); [|destruct (Qltb d 100); [|destruct (Qltb d 500)]];
    rewrite !elem_of_cons; tauto.
Qed.

Lemma location_values_range q : q ∈ location_values -> 0 <= q <= 1.
Proof.
  unfold location_values. rewrite !elem_of_cons, elem_of_nil.
  intros [->|[->|[->|[->|[->|[->|[]]]]]]]; split; discriminate.
Qed.

Lemma calculate_location_score_in_values {W}
    (geocode : string -> W -> geo_outcome * W)
    (geodesic : Q * Q -> Q * Q -> option Q)
    (candidate_location job_location : option string) (w : W) :
  fst (calculate_location_score W geocode geodesic
         candidate_location job_location w) ∈ location_values.
Proof.
  unfold calculate_location_score.
  destruct (negb _ || negb _);
    [simpl; unfold location_values; rewrite !elem_of_cons; tauto|].
  cbv zeta.
  destruct (_ || _);
    [simpl; unfold location_values; rewrite !elem_of_cons; tauto|].
  unfold location_try.
  destruct (geocode (text_of candidate_location) w) as [r1 w1].
  destruct r1 as [| |lat1 lon1]; [apply simple_fallback_values| |];
    destruct (geocode (text_of job_location) w1) as [r2 w2];
    destruct r2 as [| |lat2 lon2]; simpl;
    try apply simple_fallback_values; try apply string_fallback_values.
  destruct (geodesic _ _); simpl;
    [apply distance_band_values|apply simple_fallback_values].
Qed.

(** C10. Whatever the two locations are and whatever the geocoder and the
    distance computation do (results, no result, or an exception), the
    score of [calculate_location_score] is one of 0.2, 0.3, 0.5, 0.7, 0.8
    and 1.0, hence within [0,1]. *)
Theorem calculate_location_score_values {W}
    (geocode : string -> W -> geo_outcome * W)
    (geodesic : Q * Q -> Q * Q -> option Q)
    (candidate_location job_location : option string) (w : W) :
  let score :=
    fst (calculate_location_score W geocode geodesic
           candidate_location job_location w) in
  score ∈ [0.2; 0.3; 0.5; 0.7; 0.8; 1.0] /\ 0 <= score <= 1.
Proof.
  intros score.
  pose proof (calculate_location_score_in_values geocode geodesic
                candidate_location job_location w) as Hin.
  split; [exact Hin|apply location_values_range; exact Hin].
Qed.

(** C9. [calculate_location_score] looks at its cases in order. When
    either location is missing or empty the score is 0.5, whatever the
    strings say about remote work, and the geocoder receives no query.
    Otherwise, when either string contains "remote" in any letter case, the
    score is 1.0 and the geocoder receives no query. A job in "Remote" and a
    candidate in "Berlin" give 1.0 with every geocoder. *)
Theorem calculate_location_score_order {W}
    (geocode : string -> W -> geo_outcome * W)
    (geodesic : Q * Q -> Q * Q -> option Q)
    (candidate_location job_location : option string)
    (w : W) (log : list string) :
  let score_with (c j : option string) :=
    calculate_location_score (W * list string) (with_log geocode) geodesic
      c j (w, log) in
  (truthy_str candidate_location = false \/ truthy_str job_location = false ->
   score_with candidate_location job_location = (0.5, (w, log))) /\
  (forall c j,
      candidate_location = Some c -> job_location = Some j ->
      c <> EmptyString -> j <> EmptyString ->
      Text.contains "remote" (Text.lower c) = true \/
      Text.contains "remote" (Text.lower j) = true ->
      score_with candidate_location job_location = (1.0, (w, log))) /\
  score_with (Some "Berlin") (Some "Remote") = (1.0, (w, log)).
Proof.
  intros score_with. subst score_with. cbv beta. split; [|split].
  - intros [H|H]; unfold calculate_location_score; rewrite H.
    + reflexivity.
    + rewrite orb_true_r. reflexivity.
  - intros c j -> -> Hc Hj Hremote. unfold calculate_location_score.
    apply truthy_str_Some in Hc, Hj. rewrite Hc, Hj. cbn [negb orb text_of].
    destruct Hremote as [-> | ->]; [|rewrite orb_true_r]; reflexivity.
  - reflexivity.
Qed.

Lemma calculate_location_score_order_witness :
  calculate_location_score (unit * list string) (with_log geocoder_blank)
    no_distance (Some "") (Some "Remote") (tt, []) = (0.5, (tt, [])) /\
  calculate_location_score (unit * list string) (with_log geocoder_blank)
    no_distance (Some "Lyon, REMOTE ok") (Some "Paris") (tt, []) = (1.0, (tt, [])).
Proof.
  split.
  - apply (calculate_location_score_order geocoder_blank no_distance
             (Some "") (Some "Remote") tt []).
    left. reflexivity.
  - apply (calculate_location_score_order geocoder_blank no_distance
             (Some "Lyon, REMOTE ok") (Some "Paris") tt [])
      with (c := "Lyon, REMOTE ok") (j := "Paris");
      try reflexivity; try discriminate.
    left. reflexivity.
Defined.

(** ** Rounding *)

Lemma round_half_even_between (x : Q) (a b : Z) :
  inject_Z a <= x -> x <= inject_Z b ->
  (a <= round_half_even x <= b)%Z.
Proof.
  intros Ha Hb. unfold round_half_even.
  pose proof (Qfloor_le x) as Hfl. pose proof (Qlt_floor x) as Hfu.
  assert (a <= Qfloor x)%Z as Hlo.
  { rewrite <- (Qfloor_Z a). apply Qfloor_resp_le. exact Ha. }
  assert (Qfloor x <= b)%Z as Hhi.
  { rewrite <- (Qfloor_Z b). apply Qfloor_resp_le. exact Hb. }
  assert (Qfloor x = b -> x - inject_Z (Qfloor x) < 1 # 2) as Htop.
  { intros E. rewrite E in *. lra. }
  destruct (Qcompare_spec (x - inject_Z (Qfloor x)) (1 # 2)) as [He|Hl|Hg].
  - destruct (Z.even (Qfloor x)); [lia|].
    destruct (Z.eq_dec (Qfloor x) b) as [E|E]; [|lia].
    specialize (Htop E). lra.
  - lia.
  - destruct (Z.eq_dec (Qfloor x) b) as [E|E]; [|lia].
    specialize (Htop E). lra.
Qed.

(** Rounding a percentage keeps it a percentage. *)
Lemma round2_percentage (x : Q) : 0 <= x <= 100 -> 0 <= round2 x <= 100.
Proof.
  intros [H0 H1]. unfold round2.
  destruct (round_half_even_between (x * 100) 0 10000) as [Hl Hu].
  - change (inject_Z 0) with 0. lra.
  - change (inject_Z 10000) with (10000 # 1). lra.
  - rewrite Zle_Qle in Hl, Hu.
    change (inject_Z 0) with 0 in Hl.
    change (inject_Z 10000) with (10000 # 1) in Hu.
    split.
    + apply Qle_shift_div_l; lra.
    + apply Qle_shift_div_r; lra.
Qed.

Lemma round_half_even_lower (x : Q) (a : Z) :
  inject_Z a <= x -> (a <= round_half_even x)%Z.
Proof.
  intros Ha. unfold round_half_even.
  assert (a <= Qfloor x)%Z as Hlo.
  { rewrite <- (Qfloor_Z a). apply Qfloor_resp_le. exact Ha. }
  destruct (Qcompare _ _); [destruct (Z.even _)| |]; lia.
Qed.

Lemma round_half_even_upper (x : Q) (b : Z) :
  x <= inject_Z b -> (round_half_even x <= b)%Z.
Proof.
  intros Hb.
  destruct (round_half_even_between x (Qfloor x) b) as [_ H];
    [apply Qfloor_le|exact Hb|exact H].
Qed.

Lemma round_half_even_mono (x y : Q) :
  x <= y -> (round_half_even x <= round_half_even y)%Z.
Proof.
  intros Hxy.
  pose proof (Qfloor_resp_le _ _ Hxy) as Hf.
  destruct (Z.eq_dec (Qfloor x) (Qfloor y)) as [E|E].
  - unfold round_half_even. rewrite <- E.
    destruct (Qcompare_spec (x - inject_Z (Qfloor x)) (1 # 2)) as [He|Hl|Hg];
      destruct (Qcompare_spec (y - inject_Z (Qfloor x)) (1 # 2)) as [He'|Hl'|Hg'];
      try destruct (Z.even (Qfloor x)); try lia; lra.
  - assert (round_half_even x <= Qfloor x + 1)%Z as H1.
    { unfold round_half_even.
      destruct (Qcompare _ _); [destruct (Z.even _)| |]; lia. }
    assert (Qfloor y <= round_half_even y)%Z as H2.
    { apply round_half_even_lower. apply Qfloor_le. }
    lia.
Qed.



(** ** Binary64 rounding *)

Module FloatFacts.
Import Float.

Lemma log2_above (n : Z) : (0 <= n -> n + 1 <= 2 ^ (Z.log2 n + 1))%Z.
Proof.
  intros Hn. destruct (Z.eq_dec n 0%Z) as [->|Hz]; [discriminate|].
  pose proof (Z.log2_spec n ltac:(lia)) as [_ Hu].
  change (Z.succ (Z.log2 n)) with (Z.log2 n + 1)%Z in Hu. lia.
Qed.

Lemma spacing_pos (y : Q) : (0 < spacing y)%Z.
Proof. unfold spacing. apply Z.pow_pos_nonneg; lia. Qed.

Lemma scale_pos : (0 < scale)%Z.
Proof. reflexivity. Qed.

Lemma fl_grid (x : Q) :
  fl x == inject_Z (grid (x * inject_Z scale)) / inject_Z scale.
Proof. unfold fl. rewrite Qred_correct. reflexivity. Qed.

Lemma inject_pos (z : Z) : (0 < z)%Z -> 0 < inject_Z z.
Proof. intros H. rewrite Zlt_Qlt in H. exact H. Qed.

Lemma grid_nonneg (y : Q) : 0 <= y -> (0 <= grid y)%Z.
Proof.
  intros Hy. unfold grid. pose proof (spacing_pos y) as Hu.
  apply Z.mul_nonneg_nonneg; [|lia].
  apply round_half_even_lower. change (inject_Z 0) with 0.
  apply Qle_shift_div_l; [apply inject_pos; exact Hu|]. lra.
Qed.

(** Rounding to the grid keeps the order of two non-negative numbers:
    with the same spacing because rounding to an integer does, and
    otherwise because a power of two, which is on the grid, lies between
    them. *)
Lemma grid_mono (y y' : Q) : 0 <= y -> y <= y' -> (grid y <= grid y')%Z.
Proof.
  intros Hy Hyy'. unfold grid, spacing.
  assert (Qabs y == y) as Ey by (apply Qabs_pos; exact Hy).
  assert (Qabs y' == y') as Ey' by (apply Qabs_pos; lra).
  rewrite (Qfloor_comp _ _ Ey), (Qfloor_comp _ _ Ey').
  set (n := Qfloor y). set (n' := Qfloor y').
  assert (0 <= n)%Z as Hn.
  { change 0%Z with (Qfloor 0). apply Qfloor_resp_le. exact Hy. }
  assert (n <= n')%Z as Hnn' by (apply Qfloor_resp_le; exact Hyy').
  pose proof (Z.log2_le_mono _ _ Hnn') as Hk.
  pose proof (Z.log2_nonneg n) as Hk0.
  set (k := Z.log2 n) in *. set (k' := Z.log2 n') in *.
  destruct (Z.eq_dec (Z.max k 52) (Z.max k' 52)) as [E|E].
  - rewrite <- E. set (u := (2 ^ (Z.max k 52 - 52))%Z).
    assert (0 < u)%Z as Hu by (apply Z.pow_pos_nonneg; lia).
    apply Z.mul_le_mono_nonneg_r; [lia|].
    apply round_half_even_mono.
    apply Qle_shift_div_l; [apply inject_pos; exact Hu|].
    field_simplify; [lra|]. pose proof (inject_pos _ Hu). lra.
  - assert (Z.max k 52 < k')%Z as Hlt by lia.
    assert (Z.max k' 52 = k') as Ek' by lia. rewrite Ek'.
    set (e := Z.max k 52) in *.
    set (u := (2 ^ (e - 52))%Z). set (u' := (2 ^ (k' - 52))%Z).
    assert (0 < u)%Z as Hu by (apply Z.pow_pos_nonneg; lia).
    assert (0 < u')%Z as Hu' by (apply Z.pow_pos_nonneg; lia).
    assert (2 ^ 53 * u = 2 ^ (e + 1))%Z as Eu.
    { unfold u. rewrite <- Z.pow_add_r by lia. f_equal. lia. }
    assert (2 ^ 52 * u' = 2 ^ k')%Z as Eu'.
    { unfold u'. rewrite <- Z.pow_add_r by lia. f_equal. lia. }
    assert (2 ^ (e + 1) <= 2 ^ k')%Z as Hpow.
    { apply Z.pow_le_mono_r; lia. }
    assert (round_half_even (y / inject_Z u) <= 2 ^ 53)%Z as Hlow.
    { apply round_half_even_upper.
      apply Qle_shift_div_r; [apply inject_pos; exact Hu|].
      rewrite <- inject_Z_mult, Eu.
      pose proof (log2_above n Hn) as Ha. fold k in Ha.
      assert (2 ^ (k + 1) <= 2 ^ (e + 1))%Z as Hb.
      { apply Z.pow_le_mono_r; lia. }
      pose proof (Qlt_floor y) as Hf. fold n in Hf.
      assert (n + 1 <= 2 ^ (e + 1))%Z as Hc by lia.
      rewrite Zle_Qle in Hc. lra. }
    assert (2 ^ 52 <= round_half_even (y' / inject_Z u'))%Z as Hhigh.
    { apply round_half_even_lower.
      apply Qle_shift_div_l; [apply inject_pos; exact Hu'|].
      rewrite <- inject_Z_mult, Eu'.
      assert (0 < n')%Z as Hn'.
      { destruct (Z.eq_dec n' 0%Z) as [Z0|Z0]; [|lia].
        unfold k' in Hlt. rewrite Z0 in Hlt. cbn in Hlt. lia. }
      pose proof (Z.log2_spec n' Hn') as [Hl _]. fold k' in Hl.
      pose proof (Qfloor_le y') as Hf. fold n' in Hf.
      rewrite Zle_Qle in Hl. lra. }
    assert (0 <= round_half_even (y / inject_Z u))%Z as H0.
    { apply round_half_even_lower. change (inject_Z 0) with 0.
      apply Qle_shift_div_l; [apply inject_pos; exact Hu|]. lra. }
    nia.
Qed.

Lemma fl_nonneg (x : Q) : 0 <= x -> 0 <= fl x.
Proof.
  intros Hx. rewrite fl_grid.
  pose proof (inject_pos _ scale_pos) as Hs.
  apply Qle_shift_div_l; [exact Hs|].
  assert (0 <= x * inject_Z scale) as Hy by nra.
  pose proof (grid_nonneg _ Hy) as Hg. rewrite Zle_Qle in Hg.
  change (inject_Z 0) with 0 in Hg. lra.
Qed.

(** Rounding to binary64 keeps the order of two non-negative numbers. *)
Lemma fl_mono (x y : Q) : 0 <= x -> x <= y -> fl x <= fl y.
Proof.
  intros Hx Hxy. rewrite !fl_grid.
  pose proof (inject_pos _ scale_pos) as Hs.
  assert (0 <= x * inject_Z scale) as Hy by nra.
  assert (x * inject_Z scale <= y * inject_Z scale) as Hyy by nra.
  pose proof (grid_mono _ _ Hy Hyy) as Hg. rewrite Zle_Qle in Hg.
  apply Qle_shift_div_l; [exact Hs|].
  field_simplify; [|lra]. field_simplify in Hg. lra.
Qed.

Lemma fl_1 : fl 1 = 1.
Proof. vm_compute. reflexivity. Qed.

Lemma fl_100 : fl 100 = 100.
Proof. vm_compute. reflexivity. Qed.

(** A score in [0,1] is held as a float in [0,1]. *)
Lemma fl_unit (x : Q) : 0 <= x <= 1 -> 0 <= fl x <= 1.
Proof.
  intros [H0 H1]. split; [apply fl_nonneg; exact H0|].
  pose proof (fl_mono x 1 H0 H1) as H. rewrite fl_1 in H. exact H.
Qed.

Lemma fl_percentage (x : Q) : 0 <= x <= 100 -> 0 <= fl x <= 100.
Proof.
  intros [H0 H1]. split; [apply fl_nonneg; exact H0|].
  pose proof (fl_mono x 100 H0 H1) as H. rewrite fl_100 in H. exact H.
Qed.

(** A float in [0,1], times 100 and rounded to two decimals, is a
    percentage. *)
Lemma percentage_of_unit (x : Q) :
  0 <= x <= 1 -> 0 <= Float.round2 (mul x 100) <= 100.
Proof.
  intros Hx. unfold Float.round2, mul.
  apply fl_percentage, round2_percentage, fl_percentage. lra.
Qed.

Lemma mul_bound (x c : Q) :
  0 <= x <= 1 -> 0 <= c -> 0 <= mul x c <= fl c.
Proof.
  intros Hx Hc. unfold mul. split.
  - apply fl_nonneg. nra.
  - apply fl_mono; nra.
Qed.

Lemma add_bound (a b a' b' : Q) :
  0 <= a <= a' -> 0 <= b <= b' -> 0 <= add a b <= add a' b'.
Proof.
  intros Ha Hb. unfold add. split.
  - apply fl_nonneg. lra.
  - apply fl_mono; lra.
Qed.

(** The four weights, added as floats in the order of the source, do not
    exceed 1. *)
Lemma weights_sum :
  add (add (add (fl (fl 0.35)) (fl (fl 0.30))) (fl (fl 0.20))) (fl (fl 0.15))
  <= 1.
Proof. vm_compute. discriminate. Qed.

(** The weighted sum of four floats in [0,1] lies in [0,1]. *)
Lemma weighted_sum_unit (s : scores) :
  0 <= skills_score s <= 1 -> 0 <= semantic_score s <= 1 ->
  0 <= experience_score s <= 1 -> 0 <= location_score s <= 1 ->
  0 <= weighted_sum s <= 1.
Proof.
  intros Hsk Hse Hex Hlo. unfold weighted_sum.
  assert (0 <= fl 0.35) as K1 by (apply fl_nonneg; discriminate).
  assert (0 <= fl 0.30) as K2 by (apply fl_nonneg; discriminate).
  assert (0 <= fl 0.20) as K3 by (apply fl_nonneg; discriminate).
  assert (0 <= fl 0.15) as K4 by (apply fl_nonneg; discriminate).
  pose proof (mul_bound _ _ Hsk K1) as H1.
  pose proof (mul_bound _ _ Hse K2) as H2.
  pose proof (mul_bound _ _ Hex K3) as H3.
  pose proof (mul_bound _ _ Hlo K4) as H4.
  pose proof (add_bound _ _ _ _ H1 H2) as H12.
  pose proof (add_bound _ _ _ _ H12 H3) as H123.
  pose proof (add_bound _ _ _ _ H123 H4) as H1234.
  pose proof weights_sum as Hw.
  destruct H1234 as [Hl Hu]. split; [exact Hl|].
  eapply Qle_trans; [exact Hu|exact Hw].
Qed.


End FloatFacts.

(** ** Sorting *)

Lemma Qltb_true x y : Qltb x y = true -> x < y.
Proof.
  unfold Qltb. intros H. apply negb_true_iff in H.
  apply Qnot_le_lt. intros Hle. apply Qle_bool_iff in Hle. congruence.
Qed.

Lemma Qltb_false x y : Qltb x y = false -> y <= x.
Proof.
  unfold Qltb. intros H. apply negb_false_iff in H.
  apply Qle_bool_iff. exact H.
Qed.

Lemma insert_desc_perm m ms : insert_desc m ms ≡ₚ m :: ms.
Proof.
  induction ms as [|m' ms IH]; simpl; [reflexivity|].
  destruct (Qltb _ _); [|reflexivity].
  rewrite IH. apply Permutation_swap.
Qed.

Lemma sort_desc_perm ms : sort_desc ms ≡ₚ ms.
Proof.
  induction ms as [|m ms IH]; simpl; [reflexivity|].
  rewrite insert_desc_perm, IH. reflexivity.
Qed.

Lemma insert_desc_descending m ms :
  descending ms -> descending (insert_desc m ms).
Proof.
  unfold descending. induction ms as [|m' ms IH]; simpl; intros Hs.
  - repeat constructor.
  - apply StronglySorted_inv in Hs as [Hs Hall].
    destruct (Qltb _ _) eqn:E.
    + constructor; [apply IH; exact Hs|].
      apply Forall_forall. intros x Hx.
      rewrite insert_desc_perm in Hx. apply elem_of_cons in Hx as [->|Hx].
      * unfold not_below. apply Qlt_le_weak, Qltb_true. exact E.
      * rewrite Forall_forall in Hall. apply Hall. exact Hx.
    + apply Qltb_false in E.
      constructor; [constructor; assumption|].
      constructor; [exact E|].
      eapply Forall_impl; [exact Hall|].
      intros x Hx. unfold not_below in *. simpl in *. lra.
Qed.

Lemma sort_desc_descending ms : descending (sort_desc ms).
Proof.
  induction ms as [|m ms IH]; simpl.
  - constructor.
  - apply insert_desc_descending. exact IH.
Qed.

(** Inserting does not reorder entries of equal percentage. *)
Lemma insert_desc_stable v m ms :
  with_percentage v (insert_desc m ms) = with_percentage v (m :: ms).
Proof.
  unfold with_percentage.
  induction ms as [|m' ms IH]; [reflexivity|].
  cbn [insert_desc]. destruct (Qltb _ _) eqn:E; [|reflexivity].
  apply Qltb_true in E. cbn [List.filter] in *.
  destruct (Qeq_bool (match_percentage m') v) eqn:E1;
    destruct (Qeq_bool (match_percentage m) v) eqn:E2;
    rewrite IH; try reflexivity.
  apply Qeq_bool_eq in E1, E2. exfalso. lra.
Qed.

Lemma sort_desc_stable v ms :
  with_percentage v (sort_desc ms) = with_percentage v ms.
Proof.
  induction ms as [|m ms IH]; [reflexivity|].
  cbn [sort_desc]. rewrite insert_desc_stable.
  unfold with_percentage in *. cbn [List.filter]. rewrite IH. reflexivity.
Qed.

Lemma with_percentage_take v k ms :
  with_percentage v (take k ms) `prefix_of` with_percentage v ms.
Proof.
  exists (with_percentage v (drop k ms)).
  unfold with_percentage. rewrite <- List.filter_app, take_drop. reflexivity.
Qed.

Lemma slice_to_take {A} (n : Z) (l : list A) :
  exists k, slice_to n l = take k l.
Proof. unfold slice_to. destruct (0 <=? n)%Z; eauto. Qed.

Lemma descending_take k ms : descending ms -> descending (take k ms).
Proof.
  unfold descending. intros H. rewrite <- (take_drop k ms) in H.
  eapply StronglySorted_app_1_l. exact H.
Qed.

(** ** The ranking pass *)

Lemma within_int_limit_check (s : string) :
  within_int_limitb s = true -> within_int_limit s.
Proof. intros H. apply Nat.leb_le. exact H. Qed.

Lemma modest_texts_check (j : job) (cands : list candidate) :
  modest_textsb j cands = true -> modest_texts j cands.
Proof.
  unfold modest_textsb. intros H. apply andb_true_iff in H as [Hj Hc].
  split; [apply within_int_limit_check; exact Hj|].
  intros c Hin. apply within_int_limit_check.
  rewrite forallb_forall in Hc. apply Hc. apply list_elem_of_In. exact Hin.
Qed.

Section Ranking.

Variable W : Type.
Variable geocode : string -> W -> geo_outcome * W.
Variable geodesic : Q * Q -> Q * Q -> option Q.
Variable nlp_ents : string -> list (string * string).
Variable encode : string -> list Q.
Variable cosine_similarity : list Q -> list Q -> Q.

Lemma score_all_cons jl req rs jp c cands w :
  score_all W geocode geodesic nlp_ents encode cosine_similarity
    jl req rs jp (c :: cands) w
  = if negb (truthy_str (Some (full_name c)))
    then score_all W geocode geodesic nlp_ents encode cosine_similarity
           jl req rs jp cands w
    else
      match score_candidate W geocode geodesic nlp_ents encode
              cosine_similarity jl req rs jp c w with
      | Some (m, w1) =>
          match score_all W geocode geodesic nlp_ents encode
                  cosine_similarity jl req rs jp cands w1 with
          | Some (ms, w2) => Some (m :: ms, w2)
          | None => None
          end
      | None => None
      end.
Proof.
  cbn [score_all]. destruct (negb _); [reflexivity|].
  destruct (score_candidate _ _ _ _ _ _ _ _ _ _ _ _) as [[m w1]|]; [|reflexivity].
  cbn [mbind option_bind].
  destruct (score_all _ _ _ _ _ _ _ _ _ _ _ _) as [[ms w2]|]; reflexivity.
Qed.

(** One iteration returns when the row's text is within the limit of
    [int]. *)
Lemma score_candidate_returns jl req rs jp c w :
  within_int_limit (candidate_years_text c) ->
  exists m w',
    score_candidate W geocode geodesic nlp_ents encode cosine_similarity
      jl req rs jp c w = Some (m, w').
Proof.
  intros Hlen. unfold score_candidate.
  destruct (extract_experience_years_returns _ Hlen) as (n & Hn & _).
  unfold candidate_years_text in Hn. rewrite Hn. cbn [mbind option_bind].
  destruct (calculate_location_score _ _ _ _ _ _) as [lo w1]. eauto.
Qed.

Lemma score_all_returns jl req rs jp cands w :
  (forall c, c ∈ eligible cands -> within_int_limit (candidate_years_text c)) ->
  exists scored w',
    score_all W geocode geodesic nlp_ents encode cosine_similarity
      jl req rs jp cands w = Some (scored, w').
Proof.
  revert w. induction cands as [|c cands IH]; intros w Hlen.
  - exists [], w. reflexivity.
  - rewrite score_all_cons. cbn [eligible List.filter] in Hlen.
    destruct (truthy_str (Some (full_name c))) eqn:Hname; cbn [negb].
    + destruct (score_candidate_returns jl req rs jp c w) as (m & w1 & ->).
      { apply Hlen. left. }
      destruct (IH w1) as (scored & w2 & ->).
      { intros c' Hc'. apply Hlen. right. exact Hc'. }
      eauto.
    + apply IH. exact Hlen.
Qed.

Lemma score_all_scored (j : job) (required_years : Z) cands w scored w' :
  score_all W geocode geodesic nlp_ents encode cosine_similarity
    (job_location j) required_years
    (extract_skills nlp_ents (job_skills_text j)) (job_profile_text j)
    cands w = Some (scored, w') ->
  Forall2 (scored_from W geocode geodesic nlp_ents encode cosine_similarity
             j required_years) scored (eligible cands).
Proof.
  revert w scored w'. induction cands as [|c cands IH]; intros w scored w'.
  - intros [= <- _]. constructor.
  - rewrite score_all_cons. cbn [eligible List.filter].
    destruct (truthy_str (Some (full_name c))) eqn:Hname; cbn [negb].
    + destruct (score_candidate W geocode geodesic nlp_ents encode
                  cosine_similarity (job_location j) required_years
                  (extract_skills nlp_ents (job_skills_text j))
                  (job_profile_text j) c w) as [[m w1]|] eqn:Hsc;
        [|discriminate].
      destruct (score_all _ _ _ _ _ _ _ _ _ _ cands _) as [[ms w2]|] eqn:Hrest;
        [|discriminate].
      intros [= <- _].
      constructor; [exists w, w1; exact Hsc|]. eapply IH. exact Hrest.
    + apply IH.
Qed.

(** What [find_matches] returns: the scored rows, sorted and cut. *)
Lemma find_matches_scored (j : job) cands top_n w out w' :
  find_matches W geocode geodesic nlp_ents encode cosine_similarity
    j cands top_n w = Some (out, w') ->
  exists required_years scored,
    extract_experience_years (job_years_text j) = Some required_years /\
    (0 <= required_years)%Z /\
    Forall2 (scored_from W geocode geodesic nlp_ents encode cosine_similarity
               j required_years) scored (eligible cands) /\
    out = slice_to top_n (sort_desc scored).
Proof.
  unfold find_matches. fold (job_years_text j).
  destruct (extract_experience_years (job_years_text j)) as [req|] eqn:Hreq;
    [|discriminate].
  cbn [mbind option_bind].
  destruct (score_all _ _ _ _ _ _ _ _ _ _ _ _) as [[scored w1]|] eqn:Hall;
    [|discriminate].
  intros [= <- _]. exists req, scored.
  split; [reflexivity|].
  split; [exact (extract_experience_years_not_negative _ _ Hreq)|].
  split; [|reflexivity].
  apply (score_all_scored j req cands w scored w1). exact Hall.
Qed.

(** [find_matches] returns when the texts it reads numbers of years from
    are within the limit of [int]. *)
Lemma find_matches_returns (j : job) cands top_n w :
  modest_texts j cands ->
  exists out w',
    find_matches W geocode geodesic nlp_ents encode cosine_similarity
      j cands top_n w = Some (out, w').
Proof.
  intros [Hj Hc]. unfold find_matches. fold (job_years_text j).
  destruct (extract_experience_years_returns _ Hj) as (req & -> & _).
  cbn [mbind option_bind].
  destruct (score_all_returns (job_location j) req
              (extract_skills nlp_ents
                 (job_description j +:+ " " +:+ required_skills j
                  +:+ " " +:+ job_title j))
              (job_title j +:+ " " +:+ job_description j
               +:+ " " +:+ required_skills j) cands w Hc)
    as (scored & w' & ->).
  eauto.
Qed.

(** What one iteration writes into the result. *)
Lemma scored_from_fields (j : job) (required_years : Z) m c :
  scored_from W geocode geodesic nlp_ents encode cosine_similarity
    j required_years m c ->
  exists candidate_years w,
    extract_experience_years (candidate_years_text c) = Some candidate_years /\
    (0 <= candidate_years)%Z /\
    result_of m c /\
    let s := component_scores W geocode geodesic nlp_ents encode cosine_similarity
      j c required_years candidate_years w in
    match_percentage m = Float.round2 (Float.mul (weighted_sum s) 100) /\
    skills_match m = Float.round2 (Float.mul (skills_score s) 100) /\
    experience_match m = Float.round2 (Float.mul (experience_score s) 100) /\
    location_match m = Float.round2 (Float.mul (location_score s) 100).
Proof.
  intros (w & w' & Hsc). unfold score_candidate in Hsc.
  fold (candidate_years_text c) in Hsc.
  destruct (extract_experience_years (candidate_years_text c)) as [yrs|] eqn:Hy;
    [|discriminate Hsc].
  cbn [mbind option_bind] in Hsc.
  exists yrs, w. split; [reflexivity|].
  split; [exact (extract_experience_years_not_negative _ _ Hy)|].
  unfold component_scores, weighted_sum.
  cbn [skills_score semantic_score experience_score location_score].
  destruct (calculate_location_score W geocode geodesic
              (Some (location c)) (job_location j) w) as [lo w1] eqn:Hlo.
  injection Hsc as <- <-. cbn [fst].
  repeat split.
Qed.

Lemma Forall2_elem_l {A B} (R : A -> B -> Prop) l k x :
  Forall2 R l k -> x ∈ l -> exists y, y ∈ k /\ R x y.
Proof.
  induction 1 as [|a b l k Hab _ IH]; intros Hin; [inversion Hin|].
  apply elem_of_cons in Hin as [->|Hin].
  - exists b. split; [left|exact Hab].
  - destruct (IH Hin) as (y & Hy & HR). exists y. split; [right|]; assumption.
Qed.

Lemma elem_of_eligible c cands :
  c ∈ eligible cands <-> c ∈ cands /\ full_name c <> EmptyString.
Proof.
  unfold eligible. rewrite !list_elem_of_In, List.filter_In.
  rewrite truthy_str_Some. reflexivity.
Qed.

Lemma elem_of_slice_sort (top_n : Z) (ms : list match_result) m :
  m ∈ slice_to top_n (sort_desc ms) -> m ∈ ms.
Proof.
  destruct (slice_to_take top_n (sort_desc ms)) as [k ->].
  intros Hin. rewrite <- (sort_desc_perm ms).
  rewrite <- (take_drop k (sort_desc ms)). apply elem_of_app. left. exact Hin.
Qed.

Lemma experience_score_of_range (candidate_years required_years : Z) :
  (0 <= candidate_years)%Z ->
  0 <= experience_score_of candidate_years required_years <= 1.
Proof.
  intros Hc. unfold experience_score_of.
  destruct (0 <? required_years)%Z eqn:Hr; [|lra].
  destruct (required_years <=? candidate_years)%Z eqn:Hge; [lra|].
  apply Z.ltb_lt in Hr. apply Z.leb_gt in Hge.
  assert (0 < inject_Z required_years) as Hpos.
  { change 0 with (inject_Z 0). rewrite <- Zlt_Qlt. exact Hr. }
  assert (0 <= inject_Z candidate_years) as H0.
  { change 0 with (inject_Z 0). rewrite <- Zle_Qle. exact Hc. }
  assert (inject_Z candidate_years <= inject_Z required_years) as Hle.
  { rewrite <- Zle_Qle. lia. }
  split.
  - apply Qle_shift_div_l; [exact Hpos|]. lra.
  - apply Qle_shift_div_r; [exact Hpos|]. lra.
Qed.


(** The row behind a result, and what the result holds of it. *)
Lemma result_fields (j : job) cands top_n w out w' :
  find_matches W geocode geodesic nlp_ents encode cosine_similarity
    j cands top_n w = Some (out, w') ->
  exists required_years,
    extract_experience_years (job_years_text j) = Some required_years /\
    forall m, m ∈ out ->
      exists c candidate_years w0,
        c ∈ cands /\ full_name c <> EmptyString /\ result_of m c /\
        extract_experience_years (candidate_years_text c)
          = Some candidate_years /\
        (0 <= candidate_years)%Z /\
        let s := component_scores W geocode geodesic nlp_ents encode
                   cosine_similarity j c required_years candidate_years w0 in
        match_percentage m = Float.round2 (Float.mul (weighted_sum s) 100) /\
        skills_match m = Float.round2 (Float.mul (skills_score s) 100) /\
        experience_match m
          = Float.round2 (Float.mul (experience_score s) 100) /\
        location_match m = Float.round2 (Float.mul (location_score s) 100).
Proof.
  intros Hfm.
  destruct (find_matches_scored _ _ _ _ _ _ Hfm)
    as (req & scored & Hreq & _ & HF & ->).
  exists req. split; [exact Hreq|].
  intros m Hin. apply elem_of_slice_sort in Hin.
  destruct (Forall2_elem_l _ _ _ _ HF Hin) as (c & Hc & Hsc).
  apply elem_of_eligible in Hc as [Hc Hname].
  destruct (scored_from_fields _ _ _ _ Hsc)
    as (yrs & w0 & Hy & Hpos & Hres & Hfields).
  exists c, yrs, w0. repeat (split; [assumption|]). exact Hfields.
Qed.


(** C3, amended. For every result that [find_matches] returns, the skills,
    experience and location percentages lie in [0,100], and the overall
    [match_percentage] lies in [0,100] whenever the semantic similarity of
    that result's candidate with the job lies in [0,1]. The semantic
    similarity is the cosine of the two embeddings as it comes, without
    clamping. [find_matches] returns whenever the texts from which it reads
    numbers of years have at most 4300 characters. *)
Theorem find_matches_percentage_bounds (j : job) (cands : list candidate)
    (top_n : Z) (w : W) :
  (modest_texts j cands ->
   exists out w',
     find_matches W geocode geodesic nlp_ents encode cosine_similarity
       j cands top_n w = Some (out, w')) /\
  (forall out w',
     find_matches W geocode geodesic nlp_ents encode cosine_similarity
       j cands top_n w = Some (out, w') ->
     forall m, m ∈ out ->
       0 <= skills_match m <= 100 /\
       0 <= experience_match m <= 100 /\
       0 <= location_match m <= 100 /\
       exists c,
         c ∈ cands /\ result_of m c /\
         (0 <= calculate_semantic_similarity encode cosine_similarity
                 (job_profile_text j) (candidate_profile_text c) <= 1 ->
          0 <= match_percentage m <= 100)) /\
  (forall text1 text2,
     text1 <> EmptyString -> text2 <> EmptyString ->
     calculate_semantic_similarity encode cosine_similarity text1 text2
     = cosine_similarity (encode text1) (encode text2)).
Proof.
  split; [apply find_matches_returns|]. split.
  - intros out w' Hfm m Hin.
    destruct (result_fields _ _ _ _ _ _ Hfm) as (req & Hreq & Hall).
    destruct (Hall m Hin)
      as (c & yrs & w0 & Hc & _ & Hres & _ & Hy & Hmp & -> & -> & ->).
    cbn [component_scores skills_score semantic_score experience_score
         location_score] in *.
    pose proof (FloatFacts.fl_unit _
                  (calculate_skills_match_range
                     (Some (extract_skills nlp_ents (candidate_skills_text c)))
                     (Some (extract_skills nlp_ents (job_skills_text j)))))
      as Hsk.
    pose proof (FloatFacts.fl_unit _ (experience_score_of_range yrs req Hy))
      as Hex.
    pose proof (FloatFacts.fl_unit _
                  (location_values_range _
                     (calculate_location_score_in_values geocode geodesic
                        (Some (location c)) (job_location j) w0))) as Hlo.
    split; [apply FloatFacts.percentage_of_unit; exact Hsk|].
    split; [apply FloatFacts.percentage_of_unit; exact Hex|].
    split; [apply FloatFacts.percentage_of_unit; exact Hlo|].
    exists c. split; [exact Hc|]. split; [exact Hres|].
    intros Hse. apply FloatFacts.fl_unit in Hse.
    rewrite Hmp. apply FloatFacts.percentage_of_unit.
    apply FloatFacts.weighted_sum_unit; assumption.
  - intros text1 text2 H1 H2. unfold calculate_semantic_similarity.
    apply truthy_str_Some in H1, H2. rewrite H1, H2. reflexivity.
Qed.

(** C5. For a number [top_n] of results asked for, none or more, the list
    that [find_matches] returns is the head of the scored rows put in
    descending order of [match_percentage]: the ranked list is a
    permutation of the results of the named rows, it is descending, and
    results of equal percentage stand in it in the order of their rows in
    the input; the returned list is [ranked[:top_n]], itself descending,
    and its length is the minimum of [top_n] and the number of rows with a
    non-empty name. [find_matches] returns whenever the texts from which it
    reads numbers of years have at most 4300 characters. *)
Theorem find_matches_ranking (j : job) (cands : list candidate)
    (top_n : Z) (w : W) :
  (0 <= top_n)%Z ->
  (modest_texts j cands ->
   exists out w',
     find_matches W geocode geodesic nlp_ents encode cosine_similarity
       j cands top_n w = Some (out, w')) /\
  (forall out w',
     find_matches W geocode geodesic nlp_ents encode cosine_similarity
       j cands top_n w = Some (out, w') ->
     exists scored ranked,
       Forall2 result_of scored (eligible cands) /\
       ranked ≡ₚ scored /\
       descending ranked /\
       (forall v, with_percentage v ranked = with_percentage v scored) /\
       out = take (Z.to_nat top_n) ranked /\
       descending out /\
       (forall v, with_percentage v out `prefix_of` with_percentage v scored) /\
       length out = Nat.min (Z.to_nat top_n) (length (eligible cands))).
Proof.
  intros Hn. split; [apply find_matches_returns|].
  intros out w' Hfm.
  destruct (find_matches_scored _ _ _ _ _ _ Hfm)
    as (req & scored & Hreq & _ & HF & ->).
  exists scored, (sort_desc scored).
  assert (length (sort_desc scored) = length (eligible cands)) as Hlen.
  { rewrite (Permutation_length (sort_desc_perm scored)).
    eapply Forall2_length. exact HF. }
  assert (slice_to top_n (sort_desc scored)
          = take (Z.to_nat top_n) (sort_desc scored)) as Hk.
  { unfold slice_to. apply Z.leb_le in Hn. rewrite Hn. reflexivity. }
  rewrite Hk. split.
  { eapply Forall2_impl; [exact HF|]. intros m c Hsc.
    destruct (scored_from_fields _ _ _ _ Hsc) as (_ & _ & _ & _ & Hres & _).
    exact Hres. }
  split; [apply sort_desc_perm|].
  split; [apply sort_desc_descending|].
  split; [intros v; apply sort_desc_stable|].
  split; [reflexivity|].
  split; [apply descending_take, sort_desc_descending|].
  split.
  { intros v. rewrite <- (sort_desc_stable v scored).
    apply with_percentage_take. }
  rewrite length_take, Hlen. reflexivity.
Qed.

End Ranking.

(** ** Concrete runs *)

(** C3, as worded, fails: with embeddings of cosine similarity -1, a
    candidate without skills or experience in another town gets
    0*0.35 - 1*0.30 + 0*0.20 + 0.3*0.15 = -0.255, reported as -25.5. *)
Lemma negative_cosine_counterexample :
  option_map (fun r => map (fun m => match_percentage m) (fst r))
    (find_matches unit geocoder_blank no_distance no_entities
       (encode_opposed "Engineer 5 years of experience python")
       cosine_1d sample_job [ada] 10%Z tt)
  = Some [-51 # 2] /\
  ~ all_percentages_bounded.
Proof.
  split; [vm_compute; reflexivity|].
  intros H.
  specialize (H unit geocoder_blank no_distance no_entities
                (encode_opposed "Engineer 5 years of experience python")
                cosine_1d sample_job [ada] 10%Z tt).
  destruct (find_matches unit geocoder_blank no_distance no_entities
              (encode_opposed "Engineer 5 years of experience python")
              cosine_1d sample_job [ada] 10%Z tt) as [[out w']|] eqn:E;
    [|vm_compute in E; discriminate E].
  pose proof (H out w' eq_refl) as Hm.
  vm_compute in E. injection E as <- <-.
  destruct (Hm _ (list_elem_of_here _ _)) as [[Hlo _] _].
  vm_compute in Hlo. apply Hlo. reflexivity.
Qed.

Lemma find_matches_percentage_bounds_witness :
  exists out,
    find_matches unit geocoder_blank no_distance no_entities encode_same
      cosine_1d sample_job [ada; bob] 10%Z tt = Some (out, tt) /\
    forall m, m ∈ out -> 0 <= match_percentage m <= 100.
Proof.
  destruct (find_matches_percentage_bounds unit geocoder_blank no_distance
              no_entities encode_same cosine_1d sample_job [ada; bob] 10%Z tt)
    as (Hret & Hall & _).
  destruct Hret as (out & w' & Hfm).
  { apply modest_texts_check. vm_compute. reflexivity. }
  exists out. destruct w'. split; [exact Hfm|].
  intros m Hin.
  destruct (Hall out tt Hfm m Hin) as (_ & _ & _ & c & Hc & _ & Hbound).
  apply Hbound.
  assert (calculate_semantic_similarity encode_same cosine_1d
            (job_profile_text sample_job) (candidate_profile_text c) == 1)
    as ->.
  { unfold calculate_semantic_similarity.
    destruct (negb _ || negb _) eqn:E.
    - exfalso. revert E.
      assert (candidate_profile_text c <> EmptyString) as Hne.
      { unfold candidate_profile_text.
        destruct (current_position c); discriminate. }
      apply truthy_str_Some in Hne. rewrite Hne. vm_compute. discriminate.
    - vm_compute. reflexivity. }
  split; discriminate.
Defined.

Lemma find_matches_ranking_witness :
  exists out,
    find_matches unit geocoder_blank no_distance no_entities encode_same
      cosine_1d sample_job [ada; bob] 1%Z tt = Some (out, tt) /\
    map m_name out = ["Bob"] /\
    length out = 1%nat.
Proof.
  destruct (find_matches_ranking unit geocoder_blank no_distance no_entities
              encode_same cosine_1d sample_job [ada; bob] 1%Z tt)
    as (Hret & Hall); [lia|].
  destruct Hret as (out & w' & Hfm).
  { apply modest_texts_check. vm_compute. reflexivity. }
  exists out. destruct w'. split; [exact Hfm|].
  destruct (Hall out tt Hfm)
    as (scored & ranked & _ & _ & _ & _ & _ & _ & _ & Hlen).
  split; [|exact Hlen].
  vm_compute in Hfm. injection Hfm as <-. reflexivity.
Defined.


Example ranking_sample :
  option_map (fun r => map (fun m => (m_name m, match_percentage m)) (fst r))
    (find_matches unit geocoder_blank no_distance no_entities encode_same
       cosine_1d sample_job [ada; bob] 10%Z tt)
  = Some [("Bob", 100); ("Ada", 69 # 2)].
Proof. vm_compute. reflexivity. Qed.

(** ** Sanity checks *)

Example ex_years_1 :
  extract_experience_years "Senior dev, 5+ Years of Experience in Python" = Some 5%Z.
Proof. vm_compute. reflexivity. Qed.

Example ex_years_2 :
  extract_experience_years "3 to 6 years in the field" = Some 4%Z.
Proof. vm_compute. reflexivity. Qed.

Example ex_years_3 : extract_experience_years "no numbers here" = Some 0%Z.
Proof. vm_compute. reflexivity. Qed.

Example ex_salary_1 :
  calculate_salary_match (Some "100000") (Some "$80,000 - $120,000") == 1.
Proof. vm_compute. reflexivity. Qed.

Example ex_salary_2 :
  calculate_salary_match (Some "60000") (Some "$80,000 - $120,000") == 0.75.
Proof. vm_compute. reflexivity. Qed.

(** ** Salary matching *)

(** C4, where the code departs from it. A posted salary with a single
    integer run, "$80,000", is not a parse failure for the pattern: after
    the comma is removed the matcher gives one digit back and reads
    "8000" and "0" as the two bounds. The score for an expectation of
    100000 is then 0/100000 = 0.0, not 0.5. *)
Theorem calculate_salary_match_single_run :
  option_map (fun cs => (Re.group cs 1, Re.group cs 2))
    (Re.search Patterns.salary_pattern (Text.remove_char "," "$80,000"))
  = Some ("8000", "0") /\
  calculate_salary_match (Some "100000") (Some "$80,000") == 0 /\
  ~ calculate_salary_match (Some "100000") (Some "$80,000") == 0.5.
Proof.
  split; [vm_compute; reflexivity|].
  split; [vm_compute; reflexivity|].
  vm_compute. discriminate.
Qed.

(** C6, as worded, fails: a job text that starts with a number of 4301
    digits, followed by " years experience", matches the first pattern, and
    [int] of the capture raises instead of returning. *)
Lemma long_numeral_counterexample :
  String.length long_numeral = 4301%nat /\
  extract_experience_years (long_numeral +:+ " years experience") = None /\
  ~ always_a_non_negative_integer.
Proof.
  assert (extract_experience_years (long_numeral +:+ " years experience")
          = None) as E by (vm_compute; reflexivity).
  split; [vm_compute; reflexivity|]. split; [exact E|].
  intros H.
  destruct (H (long_numeral +:+ " years experience")) as (n & Hn & _).
  rewrite E in Hn. discriminate Hn.
Qed.

Lemma extract_experience_years_spec_witness :
  extract_experience_years "7+ YRS Exp, then 2 TO 4 Years abroad" = Some 7%Z.
Proof.
  destruct (extract_experience_years_spec
              "7+ YRS Exp, then 2 TO 4 Years abroad") as (_ & H & _).
  edestruct (H 3%nat Patterns.yrs_exp) as (_ & _ & Hin & _).
  - reflexivity.
  - vm_compute. reflexivity.
  - intros i q Hi Hq.
    destruct i as [|[|[|i]]]; [| | |lia]; injection Hq as <-;
      vm_compute; reflexivity.
  - rewrite Hin.
    + vm_compute. reflexivity.
    + apply within_int_limit_check. vm_compute. reflexivity.
Defined.

(** * Further properties *)

(** ** Strings *)

Module StringFacts.

Lemma append_assoc (a b c : string) : (a +:+ b) +:+ c = a +:+ b +:+ c.
Proof.
  induction a as [|x a IH]; [reflexivity|].
  rewrite !ReFacts.append_cons, IH. reflexivity.
Qed.

Lemma append_nil_r (a : string) : a +:+ EmptyString = a.
Proof.
  induction a as [|x a IH]; [reflexivity|].
  rewrite ReFacts.append_cons, IH. reflexivity.
Qed.

Lemma length_append (a b : string) :
  String.length (a +:+ b) = (String.length a + String.length b)%nat.
Proof.
  induction a as [|x a IH]; [reflexivity|].
  rewrite ReFacts.append_cons. simpl. rewrite IH. reflexivity.
Qed.

Lemma all_chars_append p (a b : string) :
  Text.all_chars p (a +:+ b) = Text.all_chars p a && Text.all_chars p b.
Proof.
  induction a as [|x a IH]; [reflexivity|].
  rewrite ReFacts.append_cons. simpl. rewrite IH, andb_assoc. reflexivity.
Qed.

Lemma cut_at (n : nat) (u : string) :
  (n <= String.length u)%nat ->
  exists u1 u2, u = u1 +:+ u2 /\ String.length u1 = n.
Proof.
  revert u. induction n as [|n IH]; intros u Hn.
  - exists EmptyString, u. split; reflexivity.
  - destruct u as [|c u]; [simpl in Hn; lia|].
    destruct (IH u) as (u1 & u2 & -> & Hl); [simpl in Hn; lia|].
    exists (String c u1), u2. split; [reflexivity|simpl; lia].
Qed.

Lemma lower_append (a b : string) :
  Text.lower (a +:+ b) = Text.lower a +:+ Text.lower b.
Proof.
  induction a as [|x a IH]; [reflexivity|].
  rewrite ReFacts.append_cons. simpl. rewrite IH. reflexivity.
Qed.

Lemma lower_char_idem (c : ascii) :
  Text.lower_char (Text.lower_char c) = Text.lower_char c.
Proof.
  destruct c as [[] [] [] [] [] [] [] []]; vm_compute; reflexivity.
Qed.

Lemma lower_char_digit (c : ascii) :
  Text.is_digit (Text.lower_char c) = Text.is_digit c.
Proof.
  destruct c as [[] [] [] [] [] [] [] []]; vm_compute; reflexivity.
Qed.

Lemma lower_char_of_digit (c : ascii) :
  Text.is_digit c = true -> Text.lower_char c = c.
Proof.
  destruct c as [[] [] [] [] [] [] [] []]; vm_compute; congruence.
Qed.

(** Lowercasing twice is lowercasing once. *)
Lemma lower_idem (s : string) : Text.lower (Text.lower s) = Text.lower s.
Proof.
  induction s as [|c s IH]; [reflexivity|].
  simpl. rewrite lower_char_idem, IH. reflexivity.
Qed.

Lemma lower_numeral (d : string) :
  Text.all_chars Text.is_digit d = true -> Text.lower d = d.
Proof.
  induction d as [|c d IH]; [reflexivity|]. simpl.
  intros H. apply andb_true_iff in H as [Hc Hd].
  rewrite (lower_char_of_digit c Hc), (IH Hd). reflexivity.
Qed.

Lemma lower_no_digit (s : string) : no_digit s -> no_digit (Text.lower s).
Proof.
  unfold no_digit. induction s as [|c s IH]; [reflexivity|]. simpl.
  intros H. apply andb_true_iff in H as [Hc Hs].
  rewrite lower_char_digit, Hc, (IH Hs). reflexivity.
Qed.

Lemma starts_with_append (p s t : string) :
  Text.starts_with p s = true -> Text.starts_with p (s +:+ t) = true.
Proof.
  revert s. induction p as [|a p IH]; intros s; [reflexivity|].
  destruct s as [|b s]; [discriminate|].
  rewrite ReFacts.append_cons. simpl.
  destruct (Ascii.eqb a b); [apply IH|discriminate].
Qed.

(** What occurs in a text occurs in every text around it. *)
Lemma contains_append (p a s b : string) :
  Text.contains p s = true -> Text.contains p (a +:+ s +:+ b) = true.
Proof.
  intros H. induction a as [|x a IH].
  - rewrite ReFacts.append_nil.
    induction s as [|y s IHs].
    + simpl in H. rewrite orb_false_r in H.
      destruct p; [|discriminate H]. destruct b; reflexivity.
    + rewrite ReFacts.append_cons.
      cbn [Text.contains] in *. apply orb_true_iff in H as [H|H].
      * apply orb_true_iff. left.
        apply (starts_with_append p (String y s) b H).
      * apply orb_true_iff. right. apply IHs. exact H.
  - rewrite ReFacts.append_cons. cbn [Text.contains].
    apply orb_true_iff. right. exact IH.
Qed.

End StringFacts.

(** ** What the patterns without groups match *)

Module RunFacts.
Import Re Registration StringFacts.

Lemma elem_of_flat_map {A B} (f : A -> list B) (l : list A) (y : B) :
  y ∈ flat_map f l <-> exists x, x ∈ l /\ y ∈ f x.
Proof.
  rewrite list_elem_of_In, in_flat_map. split; intros (x & Hx & Hy); exists x.
  - split; apply list_elem_of_In; assumption.
  - split; apply list_elem_of_In; assumption.
Qed.

Lemma rep_self g p s : s ∈ rep g p s.
Proof.
  destruct s as [|c s]; simpl; [left|].
  destruct (p c); [|left]. destruct g; [|left].
  apply elem_of_app. right. left.
Qed.

Lemma rep_iff g p s s' :
  s' ∈ rep g p s <-> exists u, s = u +:+ s' /\ Text.all_chars p u = true.
Proof.
  split; [apply ReFacts.rep_split|].
  intros (u & -> & Hu). induction u as [|c u IH].
  - apply rep_self.
  - rewrite ReFacts.append_cons. simpl in *.
    apply andb_true_iff in Hu as [Hc Hu]. rewrite Hc.
    destruct g.
    + apply elem_of_app. left. apply IH. exact Hu.
    + right. apply IH. exact Hu.
Qed.

Lemma recognises_eps : recognises Eps (fun u => u = EmptyString).
Proof.
  intros s cs s' cs'. simpl. rewrite list_elem_of_singleton. split.
  - intros [= -> ->]. split; [reflexivity|]. exists EmptyString. auto.
  - intros (-> & u & -> & ->). reflexivity.
Qed.

Lemma recognises_chr p :
  recognises (Chr p) (fun u => exists c, u = String c EmptyString /\ p c = true).
Proof.
  intros s cs s' cs'. simpl. split.
  - destruct s as [|c s]; [intros H; inversion H|].
    destruct (p c) eqn:Hp; [|intros H; inversion H].
    rewrite list_elem_of_singleton. intros [= -> ->].
    split; [reflexivity|]. exists (String c EmptyString). split; [reflexivity|].
    exists c. auto.
  - intros (-> & u & -> & c & -> & Hp).
    rewrite ReFacts.append_cons, ReFacts.append_nil, Hp. left.
Qed.

Lemma recognises_rep g p :
  recognises (Rep g p) (fun u => Text.all_chars p u = true).
Proof.
  intros s cs s' cs'. simpl. rewrite list_elem_of_fmap. split.
  - intros (s1 & [= -> ->] & Hin). split; [reflexivity|].
    exact (proj1 (rep_iff g p s s1) Hin).
  - intros (-> & Hu). exists s'. split; [reflexivity|].
    exact (proj2 (rep_iff g p s s') Hu).
Qed.

Lemma recognises_seq r1 r2 L1 L2 :
  recognises r1 L1 -> recognises r2 L2 ->
  recognises (Seq r1 r2)
    (fun u => exists u1 u2, u = u1 +:+ u2 /\ L1 u1 /\ L2 u2).
Proof.
  intros H1 H2 s cs s' cs'. simpl. rewrite elem_of_flat_map. split.
  - intros ([s1 cs1] & Hin1 & Hin2). simpl in Hin2.
    apply H1 in Hin1 as (-> & u1 & -> & Hu1).
    apply H2 in Hin2 as (-> & u2 & -> & Hu2).
    split; [reflexivity|]. exists (u1 +:+ u2).
    split; [symmetry; apply append_assoc|]. exists u1, u2. auto.
  - intros (-> & u & -> & u1 & u2 & -> & Hu1 & Hu2).
    exists (u2 +:+ s', cs). split.
    + apply H1. split; [reflexivity|]. exists u1.
      split; [apply append_assoc|exact Hu1].
    + simpl. apply H2. split; [reflexivity|]. exists u2. auto.
Qed.

Lemma recognises_opt r L :
  recognises r L -> recognises (Opt r) (fun u => L u \/ u = EmptyString).
Proof.
  intros H s cs s' cs'. simpl. rewrite elem_of_app, list_elem_of_singleton. split.
  - intros [Hin|[= -> ->]].
    + apply H in Hin as (-> & u & -> & Hu). split; [reflexivity|].
      exists u. auto.
    + split; [reflexivity|]. exists EmptyString. auto.
  - intros (-> & u & -> & [Hu| ->]).
    + left. apply H. split; [reflexivity|]. exists u. auto.
    + right. reflexivity.
Qed.

Lemma recognises_ext r (L L' : string -> Prop) :
  (forall u, L u <-> L' u) -> recognises r L -> recognises r L'.
Proof.
  intros HL H s cs s' cs'. rewrite (H s cs s' cs'). split.
  - intros (-> & u & -> & Hu). split; [reflexivity|]. exists u.
    split; [reflexivity|]. apply HL. exact Hu.
  - intros (-> & u & -> & Hu). split; [reflexivity|]. exists u.
    split; [reflexivity|]. apply HL. exact Hu.
Qed.

Lemma recognises_one c :
  recognises (one c) (fun u => u = String c EmptyString).
Proof.
  eapply recognises_ext; [|apply recognises_chr].
  intros u. split.
  - intros (x & -> & Hx). apply Ascii.eqb_eq in Hx. subst. reflexivity.
  - intros ->. exists c. split; [reflexivity|apply Ascii.eqb_refl].
Qed.

Lemma recognises_plus p :
  recognises (plus p)
    (fun u => u <> EmptyString /\ Text.all_chars p u = true).
Proof.
  eapply recognises_ext;
    [|apply (recognises_seq _ _ _ _ (recognises_chr p) (recognises_rep true p))].
  intros u. split.
  - intros (u1 & u2 & -> & (c & -> & Hc) & Hu2).
    rewrite ReFacts.append_cons, ReFacts.append_nil. split; [discriminate|].
    simpl. rewrite Hc, Hu2. reflexivity.
  - intros [Hne Hall]. destruct u as [|c u]; [congruence|].
    simpl in Hall. apply andb_true_iff in Hall as [Hc Hu].
    exists (String c EmptyString), u. split; [reflexivity|].
    split; [exists c; auto|exact Hu].
Qed.

Lemma recognises_exactly n p :
  recognises (exactly n p)
    (fun u => String.length u = n /\ Text.all_chars p u = true).
Proof.
  induction n as [|n IH]; simpl.
  - eapply recognises_ext; [|apply recognises_eps].
    intros u. split; [intros ->; auto|].
    intros [Hl _]. destruct u; [reflexivity|discriminate Hl].
  - eapply recognises_ext;
      [|apply (recognises_seq _ _ _ _ (recognises_chr p) IH)].
    intros u. split.
    + intros (u1 & u2 & -> & (c & -> & Hc) & Hl & Hall).
      rewrite ReFacts.append_cons, ReFacts.append_nil. simpl.
      rewrite Hc, Hall, Hl. auto.
    + intros [Hl Hall]. destruct u as [|c u]; [discriminate Hl|].
      simpl in Hl, Hall. apply andb_true_iff in Hall as [Hc Hu].
      exists (String c EmptyString), u. split; [reflexivity|].
      split; [exists c; auto|]. split; [lia|exact Hu].
Qed.

Lemma recognises_at_most n p :
  recognises (at_most n p)
    (fun u => (String.length u <= n)%nat /\ Text.all_chars p u = true).
Proof.
  induction n as [|n IH]; simpl.
  - eapply recognises_ext; [|apply recognises_eps].
    intros u. split; [intros ->; simpl; auto|].
    intros [Hl _]. destruct u; [reflexivity|simpl in Hl; lia].
  - eapply recognises_ext;
      [|apply recognises_opt, (recognises_seq _ _ _ _ (recognises_chr p) IH)].
    intros u. split.
    + intros [(u1 & u2 & -> & (c & -> & Hc) & Hl & Hall)| ->].
      * rewrite ReFacts.append_cons, ReFacts.append_nil. simpl.
        rewrite Hc, Hall. split; [lia|reflexivity].
      * simpl. split; [lia|reflexivity].
    + intros [Hl Hall]. destruct u as [|c u]; [right; reflexivity|left].
      simpl in Hl, Hall. apply andb_true_iff in Hall as [Hc Hu].
      exists (String c EmptyString), u. split; [reflexivity|].
      split; [exists c; auto|]. split; [lia|exact Hu].
Qed.

Lemma at_end_iff rest :
  at_end rest = true <-> rest = EmptyString \/ rest = String "010" EmptyString.
Proof.
  destruct rest as [|c [|d rest]]; simpl.
  - tauto.
  - rewrite Ascii.eqb_eq. split; [intros ->; auto|].
    intros [H|H]; [discriminate H|injection H; auto].
  - split; [discriminate|]. intros [H|H]; discriminate H.
Qed.

(** A pattern closed by the dollar anchor accepts a string when the string
    is in the language of the body, possibly with one newline after it. *)
Lemma full_match_iff r L s :
  recognises r L ->
  full_match r s = true <->
  exists u, L u /\ (s = u \/ s = u +:+ String "010" EmptyString).
Proof.
  intros H. unfold full_match. rewrite existsb_exists. split.
  - intros ([s' cs'] & Hin & Hend). simpl in Hend.
    apply list_elem_of_In, H in Hin as (_ & u & -> & Hu).
    exists u. split; [exact Hu|].
    apply at_end_iff in Hend as [-> | ->]; [left; apply append_nil_r|right; reflexivity].
  - intros (u & Hu & [-> | ->]).
    + exists (EmptyString, ∅). split; [|reflexivity].
      apply list_elem_of_In, H. split; [reflexivity|]. exists u.
      split; [symmetry; apply append_nil_r|exact Hu].
    + exists (String "010" EmptyString, ∅). split; [|reflexivity].
      apply list_elem_of_In, H. split; [reflexivity|]. exists u. auto.
Qed.

End RunFacts.

(** ** Validation of usernames and of email addresses *)

(** X16. A username is accepted exactly when it is made of 3 to 20 letters,
    digits and underscores, possibly followed by one newline: the dollar
    anchor lets a final newline through. *)
Theorem validate_username_iff (username : string) :
  Registration._validate_username username = true <->
  exists u,
    (3 <= String.length u <= 20)%nat /\
    Text.all_chars Registration.word_char u = true /\
    (username = u \/ username = u +:+ String "010" EmptyString).
Proof.
  unfold Registration._validate_username.
  rewrite (RunFacts.full_match_iff _ _ username
             (RunFacts.recognises_seq _ _ _ _
                (RunFacts.recognises_exactly 3 Registration.word_char)
                (RunFacts.recognises_at_most 17 Registration.word_char))).
  split.
  - intros (u & (u1 & u2 & -> & [Hl1 Ha1] & [Hl2 Ha2]) & Hs).
    exists (u1 +:+ u2). rewrite StringFacts.length_append,
      StringFacts.all_chars_append, Ha1, Ha2.
    split; [lia|]. split; [reflexivity|exact Hs].
  - intros (u & Hl & Ha & Hs). exists u. split; [|exact Hs].
    destruct (StringFacts.cut_at 3 u) as (u1 & u2 & -> & Hl1); [lia|].
    rewrite StringFacts.length_append in Hl.
    rewrite StringFacts.all_chars_append in Ha.
    apply andb_true_iff in Ha as [Ha1 Ha2].
    exists u1, u2. repeat split; try assumption. lia.
Qed.

(** X17. An email address is accepted exactly when it reads local@domain.tld,
    possibly followed by one newline, with a non-empty local part of
    letters, digits and [._%+-], a non-empty domain of letters, digits,
    dots and hyphens, and a last label of at least two letters. *)
Theorem validate_email_iff (email : string) :
  Registration._validate_email email = true <->
  exists local domain tld,
    local <> EmptyString /\
    Text.all_chars Registration.local_char local = true /\
    domain <> EmptyString /\
    Text.all_chars Registration.domain_char domain = true /\
    (2 <= String.length tld)%nat /\
    Text.all_chars Registration.is_alpha tld = true /\
    let address := local +:+ "@" +:+ domain +:+ "." +:+ tld in
    (email = address \/ email = address +:+ String "010" EmptyString).
Proof.
  unfold Registration._validate_email, Registration.email_pattern.
  cbn [Re.seqs].
  rewrite (RunFacts.full_match_iff _ _ email
    (RunFacts.recognises_seq _ _ _ _
       (RunFacts.recognises_plus Registration.local_char)
       (RunFacts.recognises_seq _ _ _ _ (RunFacts.recognises_one "@")
          (RunFacts.recognises_seq _ _ _ _
             (RunFacts.recognises_plus Registration.domain_char)
             (RunFacts.recognises_seq _ _ _ _ (RunFacts.recognises_one ".")
                (RunFacts.recognises_seq _ _ _ _
                   (RunFacts.recognises_exactly 2 Registration.is_alpha)
                   (RunFacts.recognises_rep true Registration.is_alpha))))))).
  split.
  - intros (u & (l & r1 & -> & [Hl Hla] & a & r2 & -> & -> & d & r3 & ->
                 & [Hd Hda] & dt & r4 & -> & -> & t1 & t2 & -> & [Ht1 Hta1]
                 & Hta2) & Hs).
    exists l, d, (t1 +:+ t2).
    rewrite StringFacts.length_append, StringFacts.all_chars_append, Hta1, Hta2.
    repeat (split; [first [assumption|lia|reflexivity]|]).
    exact Hs.
  - intros (l & d & t & Hl & Hla & Hd & Hda & Ht & Hta & Hs).
    destruct (StringFacts.cut_at 2 t) as (t1 & t2 & -> & Ht1); [exact Ht|].
    rewrite StringFacts.all_chars_append in Hta.
    apply andb_true_iff in Hta as [Hta1 Hta2].
    eexists. split; [|exact Hs].
    exists l, ("@" +:+ d +:+ "." +:+ t1 +:+ t2). split; [reflexivity|].
    split; [auto|].
    exists "@", (d +:+ "." +:+ t1 +:+ t2). split; [reflexivity|].
    split; [reflexivity|].
    exists d, ("." +:+ t1 +:+ t2). split; [reflexivity|]. split; [auto|].
    exists ".", (t1 +:+ t2). split; [reflexivity|]. split; [reflexivity|].
    exists t1, t2. auto.
Qed.

Lemma validate_username_iff_witness :
  Registration._validate_username ("ada_99" +:+ String "010" EmptyString) = true.
Proof.
  apply validate_username_iff. exists "ada_99".
  split; [simpl; lia|]. split; [reflexivity|]. right. reflexivity.
Defined.

Lemma validate_email_iff_witness :
  Registration._validate_email "ada.l+jobs@mail.example.org" = true.
Proof.
  apply validate_email_iff. exists "ada.l+jobs", "mail.example", "org".
  repeat (split; [first [discriminate|reflexivity|simpl; lia]|]).
  left. reflexivity.
Defined.

(** ** The first way a pattern with numbers matches *)

Module HeadFacts.
Import Re StringFacts.

(** A greedy star first takes the whole run. *)
Lemma rep_greedy_head p d t :
  Text.all_chars p d = true ->
  (t = EmptyString \/ exists c t', t = String c t' /\ p c = false) ->
  exists l, rep true p (d +:+ t) = t :: l.
Proof.
  intros Hd Ht. induction d as [|c d IH].
  - rewrite ReFacts.append_nil.
    destruct Ht as [-> | (c & t' & -> & Hc)]; simpl; [eauto|].
    rewrite Hc. eauto.
  - simpl in Hd. apply andb_true_iff in Hd as [Hc Hd].
    rewrite ReFacts.append_cons. simpl. rewrite Hc.
    destruct (IH Hd) as [l ->]. simpl. eauto.
Qed.

Lemma ends_number_cases t :
  ends_number t ->
  t = EmptyString \/ exists c t', t = String c t' /\ digit c = false.
Proof. destruct t as [|c t]; simpl; eauto. Qed.

(** [(\d+)] at the head of a number takes the whole number first. *)
Lemma run_num_head n d t cs :
  ReSpec.numeral d -> ends_number t ->
  exists l, run (Patterns.num n) (d +:+ t) cs = (t, <[n := d]> cs) :: l.
Proof.
  intros [Hne Hd] Ht. destruct d as [|c d]; [congruence|].
  simpl in Hd. apply andb_true_iff in Hd as [Hc Hd].
  destruct (rep_greedy_head digit d t Hd (ends_number_cases t Ht)) as [l Hl].
  unfold Patterns.num, plus. rewrite ReFacts.append_cons.
  cbn [run flat_map]. change (digit c = true) in Hc. rewrite Hc.
  cbn [flat_map fst snd]. rewrite app_nil_r, Hl. cbn [map fst snd].
  unfold consumed. rewrite <- ReFacts.append_cons, ReFacts.take_str_app.
  eauto.
Qed.

Lemma run_num_fail n c s cs :
  Text.is_digit c = false -> run (Patterns.num n) (String c s) cs = [].
Proof.
  intros Hc. unfold Patterns.num, plus. cbn [run flat_map].
  change (digit c = false) in Hc. rewrite Hc. reflexivity.
Qed.

(** A pattern that starts with a number finds nothing to start from in a
    text without digits. *)
Lemma search_skip_no_digit n rest pre s :
  no_digit pre ->
  search (Seq (Patterns.num n) rest) (pre +:+ s)
  = search (Seq (Patterns.num n) rest) s.
Proof.
  unfold no_digit. intros Hpre. induction pre as [|c pre IH]; [reflexivity|].
  simpl in Hpre. apply andb_true_iff in Hpre as [Hc Hpre].
  apply negb_true_iff in Hc.
  rewrite ReFacts.append_cons. cbn [search]. unfold match_here.
  cbn [run]. rewrite (run_num_fail n c _ _ Hc). cbn [flat_map].
  apply IH. exact Hpre.
Qed.

Lemma search_here r s cs l :
  run r s ∅ = (l.1, cs) :: l.2 -> search r s = Some cs.
Proof.
  intros H. destruct s; cbn [search]; unfold match_here; rewrite H; reflexivity.
Qed.

(** The lazy [.*?] in front of a number gives way, one character at a
    time, until the number starts. *)
Lemma lazy_dot_then_num n sep d post cs :
  Text.all_chars (fun c => negb (Text.is_digit c) && dot c) sep = true ->
  ReSpec.numeral d -> ends_number post ->
  exists l,
    flat_map (fun st => run (Patterns.num n) (fst st) (snd st))
             (map (fun s' => (s', cs)) (rep false dot (sep +:+ d +:+ post)))
    = (post, <[n := d]> cs) :: l.
Proof.
  intros Hsep Hd Hpost. induction sep as [|c sep IH].
  - rewrite ReFacts.append_nil.
    destruct (run_num_head n d post cs Hd Hpost) as [l Hl].
    destruct Hd as [Hne _]. destruct d as [|c d]; [congruence|].
    rewrite ReFacts.append_cons in *. cbn [rep].
    destruct (dot c); cbn [map flat_map fst snd]; rewrite Hl; simpl; eauto.
  - simpl in Hsep. apply andb_true_iff in Hsep as [Hc Hsep].
    apply andb_true_iff in Hc as [Hnd Hdot]. apply negb_true_iff in Hnd.
    rewrite ReFacts.append_cons. cbn [rep]. rewrite Hdot.
    cbn [map flat_map fst snd]. rewrite (run_num_fail n c _ _ Hnd).
    destruct (IH Hsep) as [l ->]. simpl. eauto.
Qed.

(** The salary pattern on two numbers with a separator between them. *)
Lemma search_salary_pattern pre d1 sep d2 post :
  no_digit pre -> ReSpec.numeral d1 -> separator sep ->
  ReSpec.numeral d2 -> ends_number post ->
  search Patterns.salary_pattern (pre +:+ d1 +:+ sep +:+ d2 +:+ post)
  = Some (<[2%nat := d2]> (<[1%nat := d1]> ∅)).
Proof.
  intros Hpre H1 [Hne Hsep] H2 Hpost.
  unfold Patterns.salary_pattern. cbn [seqs].
  rewrite search_skip_no_digit by exact Hpre.
  assert (ends_number (sep +:+ d2 +:+ post)) as Hend.
  { destruct sep as [|c sep]; [congruence|]. rewrite ReFacts.append_cons.
    simpl in *. apply andb_true_iff in Hsep as [Hc _].
    apply andb_true_iff in Hc as [Hc _]. apply negb_true_iff in Hc. exact Hc. }
  destruct (run_num_head 1 d1 _ ∅ H1 Hend) as [l1 Hl1].
  destruct (lazy_dot_then_num 2 sep d2 post (<[1%nat := d1]> ∅) Hsep H2 Hpost)
    as [l2 Hl2].
  apply (search_here _ _ _ (post, (l2 ++ flat_map
           (fun st => run (Seq (Rep false dot) (Patterns.num 2)) st.1 st.2) l1)%list)).
  cbn [run]. rewrite Hl1. cbn [flat_map fst snd run]. rewrite Hl2.
  reflexivity.
Qed.

Lemma py_int_value d :
  ReSpec.numeral d -> within_int_limit d ->
  Text.py_int d = Some (Text.digits_value 0 d).
Proof. apply ReFacts.py_int_within. Qed.

Lemma digits_value_numeral d :
  ReSpec.numeral d -> (0 <= Text.digits_value 0 d)%Z.
Proof. intros [_ Hd]. apply ReFacts.digits_value_nonneg; [exact Hd|lia]. Qed.

End HeadFacts.

(** ** Salary matching on every input and on well-formed ranges *)

Lemma py_int_nonneg s n : Text.py_int s = Some n -> (0 <= n)%Z.
Proof. apply ReFacts.py_int_not_negative. Qed.

Lemma Qdiv_Z_unit (a b : Z) :
  (0 <= a)%Z -> (a <= b)%Z -> (0 < b)%Z ->
  0 <= inject_Z a / inject_Z b <= 1.
Proof.
  intros Ha Hab Hb.
  assert (0 < inject_Z b) as Hpos.
  { change 0 with (inject_Z 0). rewrite <- Zlt_Qlt. exact Hb. }
  assert (0 <= inject_Z a) as H0.
  { change 0 with (inject_Z 0). rewrite <- Zle_Qle. exact Ha. }
  assert (inject_Z a <= inject_Z b) as Hle by (rewrite <- Zle_Qle; exact Hab).
  split.
  - apply Qle_shift_div_l; [exact Hpos|]. lra.
  - apply Qle_shift_div_r; [exact Hpos|]. lra.
Qed.

(** The three-way rule on amounts that are not negative: in [0,1], and
    never a division by zero. *)
Lemma salary_branches (mn mx cand : Z) :
  (0 <= mn)%Z -> (0 <= mx)%Z -> (0 <= cand)%Z ->
  exists q,
    (if (mn <=? cand)%Z && (cand <=? mx)%Z then Some (Some 1.0)
     else if (cand <? mn)%Z then Some <$> true_div cand mn
          else Some <$> true_div mx cand) = Some (Some q) /\
    q == salary_rule mn mx cand /\ 0 <= q <= 1.
Proof.
  intros Hmn Hmx Hc. unfold salary_rule, true_div.
  destruct ((mn <=? cand)%Z && (cand <=? mx)%Z) eqn:Hin.
  - exists 1.0. split; [reflexivity|]. split; [reflexivity|lra].
  - destruct (cand <? mn)%Z eqn:Hlt.
    + apply Z.ltb_lt in Hlt.
      destruct (mn =? 0)%Z eqn:H0; [apply Z.eqb_eq in H0; lia|].
      eexists. split; [reflexivity|]. split; [reflexivity|].
      apply Qdiv_Z_unit; lia.
    + apply Z.ltb_ge in Hlt. apply andb_false_iff in Hin.
      assert (mx < cand)%Z as Hgt.
      { destruct Hin as [H|H]; [apply Z.leb_gt in H; lia|apply Z.leb_gt in H; exact H]. }
      destruct (cand =? 0)%Z eqn:H0; [apply Z.eqb_eq in H0; lia|].
      eexists. split; [reflexivity|]. split; [reflexivity|].
      apply Qdiv_Z_unit; lia.
Qed.

Lemma salary_pattern_numeric :
  ReSpec.numeric_groups Patterns.salary_pattern /\
  ReSpec.binds 1 Patterns.salary_pattern = true /\
  ReSpec.binds 2 Patterns.salary_pattern = true.
Proof. split; [simpl; repeat split|split; reflexivity]. Qed.

(** X1. [calculate_salary_match] gives a score within [0,1] on every
    input: whatever the two texts hold, no branch leaves that range. *)
Theorem calculate_salary_match_range
    (candidate_expected job_salary_range : option string) :
  0 <= calculate_salary_match candidate_expected job_salary_range <= 1.
Proof.
  unfold calculate_salary_match.
  destruct (negb _ || negb _); [lra|].
  unfold salary_try.
  destruct (Re.search _ _) as [cs|] eqn:Hs; [|lra].
  destruct (Text.py_int (Re.group cs 1)) as [mn|] eqn:H1; [|simpl; lra].
  cbn [mbind option_bind].
  destruct (Text.py_int (Re.group cs 2)) as [mx|] eqn:H2; [|simpl; lra].
  cbn [mbind option_bind].
  destruct (Text.py_int (Text.keep Text.is_digit (text_of candidate_expected)))
    as [cand|] eqn:Hc; [|simpl; lra].
  cbn [mbind option_bind].
  destruct (salary_branches mn mx cand (py_int_nonneg _ _ H1)
              (py_int_nonneg _ _ H2) (py_int_nonneg _ _ Hc))
    as (q & -> & _ & Hq).
  exact Hq.
Qed.

Lemma keep_nonempty p s : Text.keep p s <> EmptyString -> s <> EmptyString.
Proof. destruct s; [simpl; congruence|discriminate]. Qed.

(** X2. A posted range that, once its commas are removed, reads as two
    numbers with a separator between them (no digit before the first
    number, no digit and no newline in the separator) is parsed into
    exactly these two numbers, and a candidate expectation with at least
    one digit into the number made of its digits, as long as none of the
    three numbers has more than 4300 digits. The score is then 1 when
    the expectation lies within the range (bounds included), expectation
    over minimum when it lies below, and maximum over expectation when it
    lies above. *)
Theorem calculate_salary_match_well_formed
    (candidate_expected job_salary_range pre d1 sep d2 post : string) :
  Text.remove_char "," job_salary_range = pre +:+ d1 +:+ sep +:+ d2 +:+ post ->
  no_digit pre -> ReSpec.numeral d1 -> separator sep -> ReSpec.numeral d2 ->
  ends_number post ->
  ReSpec.numeral (Text.keep Text.is_digit candidate_expected) ->
  within_int_limit d1 -> within_int_limit d2 ->
  within_int_limit (Text.keep Text.is_digit candidate_expected) ->
  calculate_salary_match (Some candidate_expected) (Some job_salary_range)
  == salary_rule (Text.digits_value 0 d1) (Text.digits_value 0 d2)
       (Text.digits_value 0 (Text.keep Text.is_digit candidate_expected)).
Proof.
  intros Hj Hpre H1 Hsep H2 Hpost Hc L1 L2 Lc.
  unfold calculate_salary_match.
  assert (candidate_expected <> EmptyString) as Hcne.
  { apply (keep_nonempty Text.is_digit). apply Hc. }
  assert (job_salary_range <> EmptyString) as Hjne.
  { apply (keep_nonempty (fun a => negb (Ascii.eqb a ","))).
    fold (Text.remove_char "," job_salary_range). rewrite Hj.
    destruct H1 as [Hne _]. destruct pre; [|discriminate].
    rewrite ReFacts.append_nil. destruct d1; [congruence|discriminate]. }
  apply truthy_str_Some in Hcne, Hjne. rewrite Hcne, Hjne.
  cbn [negb orb text_of]. unfold salary_try.
  rewrite Hj, (HeadFacts.search_salary_pattern pre d1 sep d2 post
                 Hpre H1 Hsep H2 Hpost).
  assert ((<[2%nat := d2]> (<[1%nat := d1]> ∅) : gmap nat string) !! 1%nat
          = Some d1) as Hg1.
  { rewrite lookup_insert_ne by lia. apply lookup_insert_eq. }
  assert ((<[2%nat := d2]> (<[1%nat := d1]> ∅) : gmap nat string) !! 2%nat
          = Some d2) as Hg2 by apply lookup_insert_eq.
  unfold Re.group. rewrite Hg1, Hg2. cbn [default from_option id].
  rewrite (HeadFacts.py_int_value _ H1 L1), (HeadFacts.py_int_value _ H2 L2),
    (HeadFacts.py_int_value _ Hc Lc).
  cbn [mbind option_bind].
  destruct (salary_branches _ _ _ (HeadFacts.digits_value_numeral _ H1)
              (HeadFacts.digits_value_numeral _ H2)
              (HeadFacts.digits_value_numeral _ Hc))
    as (q & -> & Hq & _).
  exact Hq.
Qed.

Lemma calculate_salary_match_well_formed_witness :
  calculate_salary_match (Some "60,000 USD") (Some "$80,000 - $120,000 a year")
  == 3 # 4.
Proof.
  rewrite (calculate_salary_match_well_formed
             "60,000 USD" "$80,000 - $120,000 a year"
             "$" "80000" " - $" "120000" " a year").
  - vm_compute. reflexivity.
  - reflexivity.
  - reflexivity.
  - split; [discriminate|reflexivity].
  - split; [discriminate|reflexivity].
  - split; [discriminate|reflexivity].
  - reflexivity.
  - split; [discriminate|reflexivity].
  - apply within_int_limit_check. vm_compute. reflexivity.
  - apply within_int_limit_check. vm_compute. reflexivity.
  - apply within_int_limit_check. vm_compute. reflexivity.
Defined.

(** ** Experience extraction on the usual phrasing *)

Lemma run_seq r1 r2 s cs :
  Re.run (Re.Seq r1 r2) s cs
  = flat_map (fun st => Re.run r2 st.1 st.2) (Re.run r1 s cs).
Proof. reflexivity. Qed.

Lemma run_experience_phrase phrase post cs :
  phrase ∈ experience_phrases ->
  Re.run (Re.seqs [Patterns.plus_sign; Patterns.spaces; Patterns.years;
                   Patterns.spaces; Patterns.of_; Re.lit "experience"])
         (phrase +:+ post) cs = [(post, cs)].
Proof.
  unfold experience_phrases. rewrite !elem_of_cons, elem_of_nil.
  intros [->|[->|[->|[->|[]]]]]; vm_compute; reflexivity.
Qed.

Lemma experience_phrase_ends_number phrase post :
  phrase ∈ experience_phrases -> ends_number (phrase +:+ post).
Proof.
  unfold experience_phrases. rewrite !elem_of_cons, elem_of_nil.
  intros [->|[->|[->|[->|[]]]]]; reflexivity.
Qed.

(** X13. A number of at most 4300 digits followed by "years of
    experience", "+ years of experience", "years experience" or "+ years
    experience", in any letter case, with no digit in the text before it,
    is what [extract_experience_years] returns, whatever follows. *)
Theorem extract_experience_years_phrase (pre d phrase post : string) :
  no_digit pre -> ReSpec.numeral d -> within_int_limit d ->
  Text.lower phrase ∈ experience_phrases ->
  extract_experience_years (pre +:+ d +:+ phrase +:+ post)
  = Some (Text.digits_value 0 d).
Proof.
  intros Hpre Hd Hlen Hphrase. unfold extract_experience_years.
  rewrite !StringFacts.lower_append.
  rewrite (StringFacts.lower_numeral d) by apply Hd.
  apply StringFacts.lower_no_digit in Hpre.
  assert (Re.search Patterns.years_experience
            (Text.lower pre +:+ d +:+ Text.lower phrase +:+ Text.lower post)
          = Some (<[1%nat := d]> ∅)) as Hs.
  { unfold Patterns.years_experience. cbn [Re.seqs].
    rewrite HeadFacts.search_skip_no_digit by exact Hpre.
    destruct (HeadFacts.run_num_head 1 d
                (Text.lower phrase +:+ Text.lower post) ∅ Hd
                (experience_phrase_ends_number _ _ Hphrase)) as [l Hl].
    apply (HeadFacts.search_here _ _ _
             (Text.lower post,
              flat_map
                (fun st =>
                   Re.run (Re.seqs [Patterns.plus_sign; Patterns.spaces;
                                    Patterns.years; Patterns.spaces;
                                    Patterns.of_; Re.lit "experience"])
                          st.1 st.2) l)).
    change (Re.Seq (Patterns.num 1)
              (Re.Seq Patterns.plus_sign
                 (Re.Seq Patterns.spaces
                    (Re.Seq Patterns.years
                       (Re.Seq Patterns.spaces
                          (Re.Seq Patterns.of_ (Re.lit "experience")))))))
      with (Re.Seq (Patterns.num 1)
              (Re.seqs [Patterns.plus_sign; Patterns.spaces; Patterns.years;
                        Patterns.spaces; Patterns.of_; Re.lit "experience"])).
    rewrite run_seq, Hl. cbn [flat_map fst snd].
    rewrite (run_experience_phrase _ _ _ Hphrase). reflexivity. }
  cbn [first_match Patterns.patterns]. rewrite Hs.
  unfold Re.group. rewrite lookup_insert_eq. cbn [default from_option id].
  apply HeadFacts.py_int_value; assumption.
Qed.

Lemma extract_experience_years_phrase_witness :
  extract_experience_years
    "Team lead (remote). 12+ Years Experience in logistics, 3 to 4 years abroad"
  = Some 12%Z.
Proof.
  apply (extract_experience_years_phrase
           "Team lead (remote). " "12" "+ Years Experience"
           " in logistics, 3 to 4 years abroad").
  - reflexivity.
  - split; [discriminate|reflexivity].
  - apply within_int_limit_check. vm_compute. reflexivity.
  - vm_compute. right. right. right. left.
Defined.

(** ** Skill extraction *)

Lemma elem_of_extract_skills nlp_ents text s :
  s ∈ extract_skills nlp_ents text <->
  (in_vocabulary s /\ Text.contains s (Text.lower text) = true) \/
  from_entity nlp_ents text s.
Proof.
  unfold extract_skills, in_vocabulary, from_entity, entity_labels.
  rewrite elem_of_elements, elem_of_list_to_set, elem_of_app.
  rewrite RunFacts.elem_of_flat_map, list_elem_of_fmap.
  split.
  - intros [([category l] & Hentry & Hs)|([ent label] & -> & Hent)].
    + apply list_elem_of_filter in Hs as [Hc Hs]. left. split; [|exact Hc].
      exists category, l. auto.
    + apply list_elem_of_filter in Hent as [Hlabel Hent]. right.
      exists ent, label. auto.
  - intros [[(category & l & Hentry & Hs) Hc]|(ent & label & Hent & Hlabel & ->)].
    + left. exists (category, l). split; [exact Hentry|].
      apply list_elem_of_filter. auto.
    + right. exists (ent, label). split; [reflexivity|].
      apply list_elem_of_filter. auto.
Qed.

(** X3. [extract_skills] returns, without repetition, exactly the skills
    of the vocabulary that occur somewhere in the lowercased text (as
    substrings, also inside longer words) and the lowercased texts of the
    entities labelled ORG, PRODUCT or TECHNOLOGY. *)
Theorem extract_skills_spec
    (nlp_ents : string -> list (string * string)) (text : string) :
  NoDup (extract_skills nlp_ents text) /\
  forall s,
    s ∈ extract_skills nlp_ents text <->
    (in_vocabulary s /\ Text.contains s (Text.lower text) = true) \/
    from_entity nlp_ents text s.
Proof.
  split; [apply NoDup_elements|]. intros s. apply elem_of_extract_skills.
Qed.

Lemma vocabulary_lowercase s : in_vocabulary s -> Text.lower s = s.
Proof.
  assert (forallb (fun entry =>
                     forallb (fun skill => String.eqb (Text.lower skill) skill)
                             (snd entry)) tech_skills = true) as Hall
    by (vm_compute; reflexivity).
  intros (category & l & Hentry & Hs).
  rewrite forallb_forall in Hall.
  specialize (Hall (category, l) (proj1 (list_elem_of_In _ _) Hentry)).
  simpl in Hall. rewrite forallb_forall in Hall.
  apply String.eqb_eq, Hall, list_elem_of_In, Hs.
Qed.

Lemma extract_skills_lowercase nlp_ents text s :
  s ∈ extract_skills nlp_ents text -> Text.lower s = s.
Proof.
  intros [[Hv _]|(ent & label & _ & _ & ->)]%elem_of_extract_skills.
  - apply vocabulary_lowercase. exact Hv.
  - apply StringFacts.lower_idem.
Qed.

Lemma map_lower_fixed (l : list string) :
  (forall s, s ∈ l -> Text.lower s = s) -> map Text.lower l = l.
Proof.
  induction l as [|x l IH]; intros H; [reflexivity|]. simpl.
  rewrite (H x) by left. rewrite IH; [reflexivity|].
  intros s Hs. apply H. right. exact Hs.
Qed.

Lemma skill_set_extract_skills nlp_ents text :
  skill_set (extract_skills nlp_ents text)
  = list_to_set (extract_skills nlp_ents text).
Proof.
  unfold skill_set. rewrite map_lower_fixed; [reflexivity|].
  intros s. apply extract_skills_lowercase.
Qed.

(** X4. Every skill that [extract_skills] returns is in lower case, so
    the lowercasing that [calculate_skills_match] applies to extracted
    skills changes nothing: the set it builds from an extracted list is the
    set of the list itself. *)
Theorem extract_skills_normalised
    (nlp_ents : string -> list (string * string)) (text : string) :
  (forall s, s ∈ extract_skills nlp_ents text -> Text.lower s = s) /\
  map Text.lower (extract_skills nlp_ents text) = extract_skills nlp_ents text /\
  skill_set (extract_skills nlp_ents text)
  = list_to_set (extract_skills nlp_ents text).
Proof.
  split; [intros s; apply extract_skills_lowercase|].
  split; [|apply skill_set_extract_skills].
  apply map_lower_fixed. intros s. apply extract_skills_lowercase.
Qed.

(** X5. A skill of the vocabulary that occurs in a text, in any letter
    case and even inside a longer word, is extracted from every text that
    contains that text. *)
Theorem extract_skills_grows
    (nlp_ents : string -> list (string * string))
    (before text after s : string) :
  in_vocabulary s -> Text.contains s (Text.lower text) = true ->
  s ∈ extract_skills nlp_ents (before +:+ text +:+ after).
Proof.
  intros Hv Hc. apply elem_of_extract_skills. left. split; [exact Hv|].
  rewrite !StringFacts.lower_append. apply StringFacts.contains_append.
  exact Hc.
Qed.

Lemma extract_skills_grows_witness :
  "go" ∈ extract_skills no_entities ("We are " +:+ "GOING" +:+ " places").
Proof.
  apply (extract_skills_grows no_entities "We are " "GOING" " places" "go").
  - exists "programming". eexists. split; [left|].
    vm_compute. do 6 right. left.
  - reflexivity.
Defined.

(** ** Location scoring by distance *)

Lemma distance_band_antitone (d d' : Q) :
  d <= d' -> distance_band d' <= distance_band d.
Proof.
  intros Hle. unfold distance_band.
  destruct (Qltb d 50) eqn:E1; destruct (Qltb d' 50) eqn:E1';
    destruct (Qltb d 100) eqn:E2; destruct (Qltb d' 100) eqn:E2';
    destruct (Qltb d 500) eqn:E3; destruct (Qltb d' 500) eqn:E3';
    try (apply Qltb_true in E1); try (apply Qltb_false in E1);
    try (apply Qltb_true in E1'); try (apply Qltb_false in E1');
    try (apply Qltb_true in E2); try (apply Qltb_false in E2);
    try (apply Qltb_true in E2'); try (apply Qltb_false in E2');
    try (apply Qltb_true in E3); try (apply Qltb_false in E3');
    try (apply Qltb_false in E3); try (apply Qltb_true in E3');
    lra.
Qed.

(** X11. When neither location is missing nor remote and the geocoder
    finds both, the score is read off the distance alone (1.0 below 50 km,
    0.8 below 100, 0.5 below 500, 0.2 from 500 on), so a pair that is
    farther apart never scores higher. *)
Theorem location_score_by_distance {W}
    (geocode : string -> W -> geo_outcome * W)
    (geodesic : Q * Q -> Q * Q -> option Q)
    (c j : string) (w w1 w2 : W) (lat1 lon1 lat2 lon2 d : Q) :
  plain_locations c j ->
  geocode c w = (GeoFound lat1 lon1, w1) ->
  geocode j w1 = (GeoFound lat2 lon2, w2) ->
  geodesic (lat1, lon1) (lat2, lon2) = Some d ->
  let score :=
    fst (calculate_location_score W geocode geodesic (Some c) (Some j) w) in
  (d < 50 -> score = 1.0) /\
  (50 <= d -> d < 100 -> score = 0.8) /\
  (100 <= d -> d < 500 -> score = 0.5) /\
  (500 <= d -> score = 0.2) /\
  (forall d', d <= d' -> distance_band d' <= score).
Proof.
  intros Hplain H1 H2 Hd score. subst score.
  rewrite (calculate_location_score_plain _ _ _ _ _ Hplain).
  unfold location_try. rewrite H1, H2, Hd. cbn [fmap option_fmap option_map fst].
  assert (forall x y, x < y -> Qltb x y = true) as Ht.
  { intros x y Hxy. unfold Qltb. apply negb_true_iff.
    destruct (Qle_bool y x) eqn:E; [|reflexivity].
    apply Qle_bool_iff in E. lra. }
  assert (forall x y, y <= x -> Qltb x y = false) as Hf.
  { intros x y Hxy. unfold Qltb. apply negb_false_iff, Qle_bool_iff. exact Hxy. }
  repeat split.
  - intros H. unfold distance_band. rewrite (Ht _ _ H). reflexivity.
  - intros Ha Hb. unfold distance_band. rewrite (Hf _ _ Ha), (Ht _ _ Hb).
    reflexivity.
  - intros Ha Hb. unfold distance_band.
    rewrite (Hf d 50), (Hf _ _ Ha), (Ht _ _ Hb) by lra. reflexivity.
  - intros Ha. unfold distance_band.
    rewrite (Hf d 50), (Hf d 100), (Hf _ _ Ha) by lra. reflexivity.
  - intros d' Hle. apply distance_band_antitone. exact Hle.
Qed.

Lemma location_score_by_distance_witness :
  fst (calculate_location_score unit geocoder_two_towns distance_392
         (Some "Lyon") (Some "Paris") tt) = 0.5.
Proof.
  destruct (location_score_by_distance geocoder_two_towns distance_392
              "Lyon" "Paris" tt tt tt 45.76 4.84 48.86 2.35 392)
    as (_ & _ & H & _).
  - repeat split; try discriminate; reflexivity.
  - reflexivity.
  - reflexivity.
  - reflexivity.
  - apply H; vm_compute; [discriminate|reflexivity].
Defined.

(** ** More on the ranking pass *)

Section Pass.

Variable W : Type.
Variable geocode : string -> W -> geo_outcome * W.
Variable geodesic : Q * Q -> Q * Q -> option Q.
Variable nlp_ents : string -> list (string * string).
Variable encode : string -> list Q.
Variable cosine_similarity : list Q -> list Q -> Q.

(** The three skill lists and the skills percentage written by one
    iteration. *)
Lemma scored_from_skills (j : job) (required_years : Z) m c :
  scored_from W geocode geodesic nlp_ents encode cosine_similarity
    j required_years m c ->
  let cs : gset string :=
    list_to_set (extract_skills nlp_ents (candidate_skills_text c)) in
  let rs : gset string :=
    list_to_set (extract_skills nlp_ents (job_skills_text j)) in
  matching_skills m = elements (cs ∩ rs) /\
  missing_skills m = elements (rs ∖ cs) /\
  additional_skills m = elements (cs ∖ rs) /\
  skills_match m =
    Float.round2
      (Float.mul
         (Float.fl
            (calculate_skills_match
               (Some (extract_skills nlp_ents (candidate_skills_text c)))
               (Some (extract_skills nlp_ents (job_skills_text j)))))
         100).
Proof.
  intros (w & w' & Hsc). unfold score_candidate in Hsc.
  destruct (extract_experience_years _) as [yrs|]; [|discriminate Hsc].
  cbn [mbind option_bind] in Hsc.
  destruct (calculate_location_score _ _ _ _ _ _) as [lo w1].
  injection Hsc as <- <-. repeat split.
Qed.

Lemma result_in_out (j : job) cands top_n w out w' :
  find_matches W geocode geodesic nlp_ents encode cosine_similarity
    j cands top_n w = Some (out, w') ->
  exists required_years,
    forall m, m ∈ out ->
      exists c, c ∈ cands /\ full_name c <> EmptyString /\
        scored_from W geocode geodesic nlp_ents encode cosine_similarity
          j required_years m c.
Proof.
  intros Hfm.
  destruct (find_matches_scored W geocode geodesic nlp_ents encode
              cosine_similarity j cands top_n w out w' Hfm)
    as (req & scored & _ & _ & HF & ->).
  exists req.
  intros m Hin. apply elem_of_slice_sort in Hin.
  destruct (Forall2_elem_l _ _ _ _ HF Hin) as (c & Hc & Hsc).
  apply elem_of_eligible in Hc as [Hc Hname]. exists c. auto.
Qed.

(** X6. In every result of [find_matches] the three skill lists sort the
    skills of the job and of the candidate without overlap: a skill is
    listed as matching when both have it, as missing when only the job has
    it, as additional when only the candidate has it; no list repeats a
    skill, and matching and missing skills together number the skills
    extracted from the job. [find_matches] returns whenever the texts from
    which it reads numbers of years have at most 4300 characters. *)
Theorem find_matches_skill_lists (j : job) (cands : list candidate)
    (top_n : Z) (w : W) :
  (modest_texts j cands ->
   exists out w',
     find_matches W geocode geodesic nlp_ents encode cosine_similarity
       j cands top_n w = Some (out, w')) /\
  forall out w',
    find_matches W geocode geodesic nlp_ents encode cosine_similarity
      j cands top_n w = Some (out, w') ->
    forall m, m ∈ out ->
      exists c, c ∈ cands /\ result_of m c /\
        let candidate_skills :=
          extract_skills nlp_ents (candidate_skills_text c) in
        let required_skills := extract_skills nlp_ents (job_skills_text j) in
        (forall s, s ∈ matching_skills m <->
                   s ∈ candidate_skills /\ s ∈ required_skills) /\
        (forall s, s ∈ missing_skills m <->
                   s ∈ required_skills /\ s ∉ candidate_skills) /\
        (forall s, s ∈ additional_skills m <->
                   s ∈ candidate_skills /\ s ∉ required_skills) /\
        NoDup (matching_skills m) /\ NoDup (missing_skills m) /\
        NoDup (additional_skills m) /\
        (length (matching_skills m) + length (missing_skills m)
         = length required_skills)%nat.
Proof.
  split; [apply find_matches_returns|]. intros out w' Hfm.
  destruct (result_in_out j cands top_n w out w' Hfm) as (req & Hall).
  intros m Hin.
  destruct (Hall m Hin) as (c & Hc & _ & Hsc). exists c. split; [exact Hc|].
  destruct (scored_from_fields _ _ _ _ _ _ _ _ _ _ Hsc)
    as (_ & _ & _ & _ & Hres & _).
  split; [exact Hres|].
  destruct (scored_from_skills _ _ _ _ Hsc) as (-> & -> & -> & _).
  cbv zeta.
  set (cl := extract_skills nlp_ents (candidate_skills_text c)).
  set (rl := extract_skills nlp_ents (job_skills_text j)).
  split.
  { intros s. rewrite elem_of_elements, elem_of_intersection,
      !elem_of_list_to_set. reflexivity. }
  split.
  { intros s. rewrite elem_of_elements, elem_of_difference,
      !elem_of_list_to_set. reflexivity. }
  split.
  { intros s. rewrite elem_of_elements, elem_of_difference,
      !elem_of_list_to_set. reflexivity. }
  repeat (split; [apply NoDup_elements|]).
  change (length (elements (list_to_set cl ∩ list_to_set rl : gset string)))
    with (size (list_to_set cl ∩ list_to_set rl : gset string)).
  change (length (elements (list_to_set rl ∖ list_to_set cl : gset string)))
    with (size (list_to_set rl ∖ list_to_set cl : gset string)).
  rewrite <- size_union by set_solver.
  assert ((list_to_set cl ∩ list_to_set rl : gset string)
          ∪ (list_to_set rl ∖ list_to_set cl)
          = list_to_set rl) as ->.
  { apply set_eq. intros x.
    rewrite elem_of_union, elem_of_intersection, elem_of_difference.
    destruct (decide (x ∈ (list_to_set cl : gset string))); tauto. }
  unfold rl, extract_skills. rewrite list_to_set_elements_L. reflexivity.
Qed.

(** X7. The skills percentage of a result agrees with its lists: when
    skills were extracted both from the candidate and from the job, it is
    the number of matching skills over the number of skills extracted from
    the job, as a float, times 100 and rounded to two decimals; when none
    was extracted from one of them, it is 0. [find_matches] returns
    whenever the texts from which it reads numbers of years have at most
    4300 characters. *)
Theorem find_matches_skills_percentage (j : job) (cands : list candidate)
    (top_n : Z) (w : W) :
  (modest_texts j cands ->
   exists out w',
     find_matches W geocode geodesic nlp_ents encode cosine_similarity
       j cands top_n w = Some (out, w')) /\
  forall out w',
    find_matches W geocode geodesic nlp_ents encode cosine_similarity
      j cands top_n w = Some (out, w') ->
    forall m, m ∈ out ->
      exists c, c ∈ cands /\ result_of m c /\
        let candidate_skills :=
          extract_skills nlp_ents (candidate_skills_text c) in
        let required_skills := extract_skills nlp_ents (job_skills_text j) in
        (candidate_skills <> [] -> required_skills <> [] ->
         skills_match m =
           Float.round2
             (Float.mul
                (Float.fl
                   (inject_Z (Z.of_nat (length (matching_skills m)))
                    / inject_Z (Z.of_nat (length required_skills))))
                100)) /\
        (candidate_skills = [] \/ required_skills = [] ->
         skills_match m == 0).
Proof.
  split; [apply find_matches_returns|]. intros out w' Hfm.
  destruct (result_in_out j cands top_n w out w' Hfm) as (req & Hall).
  intros m Hin.
  destruct (Hall m Hin) as (c & Hc & _ & Hsc). exists c. split; [exact Hc|].
  destruct (scored_from_fields _ _ _ _ _ _ _ _ _ _ Hsc)
    as (_ & _ & _ & _ & Hres & _).
  split; [exact Hres|].
  destruct (scored_from_skills _ _ _ _ Hsc) as (-> & _ & _ & ->).
  cbv zeta. split.
  - intros Hcs Hrs.
    rewrite (calculate_skills_match_ratio _ _ Hcs Hrs).
    unfold overlap_ratio. rewrite !skill_set_extract_skills.
    assert (size (list_to_set (extract_skills nlp_ents (job_skills_text j))
                  : gset string)
            = length (extract_skills nlp_ents (job_skills_text j))) as ->.
    { unfold extract_skills. rewrite list_to_set_elements_L. reflexivity. }
    reflexivity.
  - intros Hempty. unfold calculate_skills_match.
    assert (negb (truthy_list
                    (Some (extract_skills nlp_ents (candidate_skills_text c))))
            || negb (truthy_list
                       (Some (extract_skills nlp_ents (job_skills_text j))))
            = true) as ->.
    { destruct Hempty as [-> | ->]; [reflexivity|apply orb_true_r]. }
    vm_compute. reflexivity.
Qed.

Lemma score_all_eligible jl req rs jp cands w :
  score_all W geocode geodesic nlp_ents encode cosine_similarity
    jl req rs jp (eligible cands) w
  = score_all W geocode geodesic nlp_ents encode cosine_similarity
      jl req rs jp cands w.
Proof.
  revert w. induction cands as [|c cands IH]; intros w; [reflexivity|].
  cbn [eligible List.filter]. rewrite (score_all_cons _ _ _ _ _ _ _ _ _ _ c cands).
  destruct (truthy_str (Some (full_name c))) eqn:Hname; cbn [negb].
  - rewrite score_all_cons, Hname. cbn [negb].
    destruct (score_candidate _ _ _ _ _ _ _ _ _ _ _ _) as [[m w1]|]; [|reflexivity].
    fold (eligible cands). rewrite IH. reflexivity.
  - apply IH.
Qed.

(** X8. Rows without a name leave no trace: [find_matches] returns the
    same results, and leaves the geocoder in the same state, as on the
    input without these rows. *)
Theorem find_matches_skips_unnamed (j : job) (cands : list candidate)
    (top_n : Z) (w : W) :
  find_matches W geocode geodesic nlp_ents encode cosine_similarity
    j (eligible cands) top_n w
  = find_matches W geocode geodesic nlp_ents encode cosine_similarity
      j cands top_n w.
Proof.
  unfold find_matches.
  destruct (extract_experience_years _) as [req|]; [|reflexivity].
  cbn [mbind option_bind]. rewrite score_all_eligible. reflexivity.
Qed.

Lemma spaced_nonempty (a b : string) : a +:+ " " +:+ b <> EmptyString.
Proof.
  destruct a as [|x a]; [rewrite ReFacts.append_nil|]; discriminate.
Qed.

(** X12. The two profile texts that [find_matches] compares are never
    empty, whatever the fields hold, so the empty-text rule of
    [calculate_semantic_similarity] never applies there: the semantic score
    of every candidate is the cosine similarity of the two embeddings. *)
Theorem find_matches_semantic_score (j : job) (c : candidate) :
  job_profile_text j <> EmptyString /\
  candidate_profile_text c <> EmptyString /\
  calculate_semantic_similarity encode cosine_similarity
    (job_profile_text j) (candidate_profile_text c)
  = cosine_similarity (encode (job_profile_text j))
                      (encode (candidate_profile_text c)).
Proof.
  assert (job_profile_text j <> EmptyString) as Hj by apply spaced_nonempty.
  assert (candidate_profile_text c <> EmptyString) as Hc
    by apply spaced_nonempty.
  split; [exact Hj|]. split; [exact Hc|].
  unfold calculate_semantic_similarity.
  apply truthy_str_Some in Hj, Hc. rewrite Hj, Hc. reflexivity.
Qed.

End Pass.

Lemma find_matches_skill_lists_witness :
  exists out,
    find_matches unit geocoder_blank no_distance no_entities encode_same
      cosine_1d sample_job [ada; bob] 10%Z tt = Some (out, tt) /\
    forall m, m ∈ out ->
      (length (matching_skills m) + length (missing_skills m) = 2)%nat.
Proof.
  destruct (find_matches_skill_lists unit geocoder_blank no_distance
              no_entities encode_same cosine_1d sample_job [ada; bob] 10%Z tt)
    as (Hret & Hprop).
  destruct Hret as (out & w' & Hfm).
  { apply modest_texts_check. vm_compute. reflexivity. }
  exists out. destruct w'. split; [exact Hfm|]. intros m Hin.
  destruct (Hprop out tt Hfm m Hin)
    as (c & _ & _ & _ & _ & _ & _ & _ & _ & Hlen).
  rewrite Hlen. vm_compute. reflexivity.
Defined.

Lemma find_matches_skills_percentage_witness :
  exists out,
    find_matches unit geocoder_blank no_distance no_entities encode_same
      cosine_1d sample_job [ada; bob] 10%Z tt = Some (out, tt) /\
    forall m, m ∈ out ->
      exists c, c ∈ [ada; bob] /\ result_of m c /\
        (extract_skills no_entities (candidate_skills_text c) = [] ->
         skills_match m == 0).
Proof.
  destruct (find_matches_skills_percentage unit geocoder_blank no_distance
              no_entities encode_same cosine_1d sample_job [ada; bob] 10%Z tt)
    as (Hret & Hprop).
  destruct Hret as (out & w' & Hfm).
  { apply modest_texts_check. vm_compute. reflexivity. }
  exists out. destruct w'. split; [exact Hfm|]. intros m Hin.
  destruct (Hprop out tt Hfm m Hin) as (c & Hc & Hres & _ & Hzero).
  exists c. split; [exact Hc|]. split; [exact Hres|].
  intros Hempty. apply Hzero. left. exact Hempty.
Defined.

(** ** The queries that the ranking pass sends to the geocoder *)

Section Queries.

Variable W : Type.
Variable geocode : string -> W -> geo_outcome * W.
Variable geodesic : Q * Q -> Q * Q -> option Q.
Variable nlp_ents : string -> list (string * string).
Variable encode : string -> list Q.
Variable cosine_similarity : list Q -> list Q -> Q.

(** One scoring of a location sends at most two queries: the candidate's
    location, then the job's. *)
Lemma location_queries (c j : option string) (w : W) (log : list string) :
  exists v w' qs,
    calculate_location_score (W * list string) (with_log geocode) geodesic
      c j (w, log) = (v, (w', (log ++ qs)%list)) /\
    (length qs <= 2)%nat /\
    (forall q, q ∈ qs -> q = text_of c \/ q = text_of j).
Proof.
  unfold calculate_location_score.
  destruct (negb _ || negb _).
  { exists 0.5, w, []. rewrite app_nil_r. split; [reflexivity|].
    split; [simpl; lia|]. intros q Hq. inversion Hq. }
  cbv zeta. destruct (_ || _).
  { exists 1.0, w, []. rewrite app_nil_r. split; [reflexivity|].
    split; [simpl; lia|]. intros q Hq. inversion Hq. }
  unfold location_try, with_log.
  destruct (geocode (text_of c) w) as [r1 w1].
  assert (forall q, q ∈ [text_of c] -> q = text_of c \/ q = text_of j) as H1.
  { intros q Hq. apply list_elem_of_singleton in Hq. auto. }
  assert (forall q, q ∈ [text_of c; text_of j] ->
                    q = text_of c \/ q = text_of j) as H2.
  { intros q Hq. rewrite !elem_of_cons, elem_of_nil in Hq. tauto. }
  destruct r1 as [| |lat1 lon1].
  - eexists _, w1, [text_of c]. split; [reflexivity|]. split; [simpl; lia|exact H1].
  - destruct (geocode (text_of j) w1) as [r2 w2].
    rewrite <- (app_assoc log [text_of c] [text_of j]).
    destruct r2; eexists _, w2, [text_of c; text_of j];
      (split; [reflexivity|]); (split; [simpl; lia|exact H2]).
  - destruct (geocode (text_of j) w1) as [r2 w2].
    rewrite <- (app_assoc log [text_of c] [text_of j]).
    destruct r2 as [| |lat2 lon2];
      try (eexists _, w2, [text_of c; text_of j];
           (split; [reflexivity|]); (split; [simpl; lia|exact H2])).
    destruct (geodesic (lat1, lon1) (lat2, lon2));
      eexists _, w2, [text_of c; text_of j];
      (split; [reflexivity|]); (split; [simpl; lia|exact H2]).
Qed.

Lemma score_candidate_state {S} (geo : string -> S -> geo_outcome * S)
    jl req rs jp c (st st' : S) m :
  score_candidate S geo geodesic nlp_ents encode cosine_similarity
    jl req rs jp c st = Some (m, st') ->
  st' = snd (calculate_location_score S geo geodesic (Some (location c)) jl st).
Proof.
  unfold score_candidate.
  destruct (extract_experience_years _) as [yrs|]; [|discriminate].
  cbn [mbind option_bind].
  destruct (calculate_location_score _ _ _ _ _ _) as [lo st1].
  intros [= _ <-]. reflexivity.
Qed.

Lemma score_all_queries jl req rs jp cands w log ms st' :
  score_all (W * list string) (with_log geocode) geodesic nlp_ents encode
    cosine_similarity jl req rs jp cands (w, log) = Some (ms, st') ->
  exists w' qs,
    st' = (w', (log ++ qs)%list) /\
    (length qs <= 2 * length (eligible cands))%nat /\
    (forall q, q ∈ qs ->
       q = text_of jl \/
       exists c, c ∈ cands /\ full_name c <> EmptyString /\ q = location c).
Proof.
  revert w log ms st'. induction cands as [|c cands IH]; intros w log ms st'.
  - intros [= <- <-]. exists w, []. rewrite app_nil_r.
    split; [reflexivity|]. split; [simpl; lia|]. intros q Hq. inversion Hq.
  - rewrite score_all_cons. cbn [eligible List.filter].
    destruct (truthy_str (Some (full_name c))) eqn:Hname; cbn [negb].
    + destruct (score_candidate _ _ _ _ _ _ _ _ _ _ _ _) as [[m st1]|] eqn:Hsc;
        [|discriminate].
      apply score_candidate_state in Hsc.
      destruct (location_queries (Some (location c)) jl w log)
        as (v & w1 & qs1 & Hloc & Hlen1 & Hq1).
      rewrite Hloc in Hsc. cbn [snd] in Hsc. subst st1.
      destruct (score_all _ _ _ _ _ _ _ _ _ _ cands _) as [[ms' st2]|] eqn:Hrest;
        [|discriminate].
      intros [= <- <-].
      destruct (IH _ _ _ _ Hrest) as (w' & qs & -> & Hlen & Hq).
      exists w', (qs1 ++ qs)%list. rewrite app_assoc.
      split; [reflexivity|]. split.
      * rewrite length_app. fold (eligible cands). simpl. lia.
      * intros q [Hin|Hin]%elem_of_app.
        -- destruct (Hq1 q Hin) as [-> | ->]; [right|left; reflexivity].
           exists c. split; [left|]. split; [|reflexivity].
           apply truthy_str_Some. exact Hname.
        -- destruct (Hq q Hin) as [->|(c' & Hc' & Hn & ->)]; [left; reflexivity|].
           right. exists c'. split; [right; exact Hc'|]. auto.
    + intros Hrest. destruct (IH _ _ _ _ Hrest) as (w' & qs & -> & Hlen & Hq).
      exists w', qs. split; [reflexivity|]. split; [exact Hlen|].
      intros q Hin. destruct (Hq q Hin) as [->|(c' & Hc' & Hn & ->)];
        [left; reflexivity|].
      right. exists c'. split; [right; exact Hc'|]. auto.
Qed.

(** X9. During a call of [find_matches] that returns, the geocoder
    receives at most two queries for each row that has a name, and none for
    the other rows; each query is the location of such a row or the
    location of the job. [find_matches] returns whenever the texts from
    which it reads numbers of years have at most 4300 characters. *)
Theorem find_matches_queries (j : job) (cands : list candidate)
    (top_n : Z) (w : W) (log : list string) :
  (modest_texts j cands ->
   exists out st',
     find_matches (W * list string) (with_log geocode) geodesic nlp_ents
       encode cosine_similarity j cands top_n (w, log) = Some (out, st')) /\
  forall out st',
    find_matches (W * list string) (with_log geocode) geodesic nlp_ents
      encode cosine_similarity j cands top_n (w, log) = Some (out, st') ->
    exists w' queries,
      st' = (w', (log ++ queries)%list) /\
      (length queries <= 2 * length (eligible cands))%nat /\
      (forall q, q ∈ queries ->
         q = text_of (job_location j) \/
         exists c, c ∈ cands /\ full_name c <> EmptyString /\ q = location c).
Proof.
  split; [apply find_matches_returns|]. intros out st'.
  unfold find_matches.
  destruct (extract_experience_years _) as [req|]; [|discriminate].
  cbn [mbind option_bind].
  destruct (score_all _ _ _ _ _ _ _ _ _ _ _ _) as [[scored st1]|] eqn:Hall;
    [|discriminate].
  intros [= _ <-].
  destruct (score_all_queries _ _ _ _ _ _ _ _ _ Hall)
    as (w' & qs & -> & Hlen & Hq).
  exists w', qs. split; [reflexivity|]. split; assumption.
Qed.

End Queries.

Lemma find_matches_queries_witness :
  exists out w' queries,
    find_matches (unit * list string) (with_log geocoder_two_towns)
      distance_392 no_entities encode_same cosine_1d sample_job
      [ada; bob] 10%Z (tt, []) = Some (out, (w', queries)) /\
    (length queries <= 4)%nat.
Proof.
  destruct (find_matches_queries unit geocoder_two_towns distance_392
              no_entities encode_same cosine_1d sample_job
              [ada; bob] 10%Z tt []) as (Hret & Hprop).
  destruct Hret as (out & st' & Hfm).
  { apply modest_texts_check. vm_compute. reflexivity. }
  destruct (Hprop out st' Hfm) as (w' & queries & -> & Hlen & _).
  exists out, w', queries. split; [exact Hfm|exact Hlen].
Defined.

(** ** Jobs without a place *)

Section NoPlace.

Variable W : Type.
Variable geocode : string -> W -> geo_outcome * W.
Variable geodesic : Q * Q -> Q * Q -> option Q.
Variable nlp_ents : string -> list (string * string).
Variable encode : string -> list Q.
Variable cosine_similarity : list Q -> list Q -> Q.

(** The job's location is missing, or it mentions remote work. *)
Lemma no_place_score {S} (geo : string -> S -> geo_outcome * S)
    (jl : option string) (cl : string) (st : S) :
  truthy_str jl = false \/
  Text.contains "remote" (Text.lower (text_of jl)) = true ->
  calculate_location_score S geo geodesic (Some cl) jl st
  = (if truthy_str jl && truthy_str (Some cl) then 1.0 else 0.5, st).
Proof.
  intros Hjl. unfold calculate_location_score.
  destruct (truthy_str jl) eqn:Hj, (truthy_str (Some cl)) eqn:Hc;
    cbn [negb orb andb]; try reflexivity.
  destruct Hjl as [Hjl|Hjl]; [discriminate Hjl|].
  rewrite Hjl, orb_true_r. reflexivity.
Qed.

Lemma score_all_state_kept {S} (geo : string -> S -> geo_outcome * S)
    jl req rs jp cands (st st' : S) ms :
  (forall cl st0,
     snd (calculate_location_score S geo geodesic (Some cl) jl st0) = st0) ->
  score_all S geo geodesic nlp_ents encode cosine_similarity
    jl req rs jp cands st = Some (ms, st') ->
  st' = st.
Proof.
  intros Hkept. revert st ms. induction cands as [|c cands IH]; intros st ms.
  - intros [= _ <-]. reflexivity.
  - rewrite score_all_cons. destruct (negb _); [apply IH|].
    destruct (score_candidate _ _ _ _ _ _ _ _ _ _ _ _) as [[m st1]|] eqn:Hsc;
      [|discriminate].
    apply (score_candidate_state geodesic nlp_ents encode cosine_similarity)
      in Hsc.
    rewrite Hkept in Hsc. subst st1.
    destruct (score_all _ _ _ _ _ _ _ _ _ _ cands _) as [[ms' st2]|] eqn:Hrest;
      [|discriminate].
    intros [= _ <-]. eapply IH. exact Hrest.
Qed.

(** X10. When the job has no location, or one that mentions remote work
    in any letter case, a call of [find_matches] that returns has sent no
    query to the geocoder, and the location percentage of every result is
    100 when the job's location is given and the candidate's too, and 50
    otherwise. [find_matches] returns whenever the texts from which it
    reads numbers of years have at most 4300 characters. *)
Theorem find_matches_no_place (j : job) (cands : list candidate)
    (top_n : Z) (w : W) (log : list string) :
  truthy_str (job_location j) = false \/
  Text.contains "remote" (Text.lower (text_of (job_location j))) = true ->
  (modest_texts j cands ->
   exists out st',
     find_matches (W * list string) (with_log geocode) geodesic nlp_ents
       encode cosine_similarity j cands top_n (w, log) = Some (out, st')) /\
  forall out st',
    find_matches (W * list string) (with_log geocode) geodesic nlp_ents
      encode cosine_similarity j cands top_n (w, log) = Some (out, st') ->
    st' = (w, log) /\
    forall m, m ∈ out ->
      (truthy_str (job_location j) = true -> m_location m <> EmptyString ->
       location_match m == 100) /\
      (truthy_str (job_location j) = false \/ m_location m = EmptyString ->
       location_match m == 50).
Proof.
  intros Hjl. split; [apply find_matches_returns|]. intros out st' Hfm.
  destruct (find_matches_scored (W * list string) (with_log geocode) geodesic
              nlp_ents encode cosine_similarity j cands top_n (w, log)
              out st' Hfm)
    as (req & scored & Hreq & _ & HF & ->).
  split.
  { unfold find_matches in Hfm. unfold job_years_text in Hreq.
    rewrite Hreq in Hfm. cbn [mbind option_bind] in Hfm.
    destruct (score_all _ _ _ _ _ _ _ _ _ _ _ _) as [[ms st1]|] eqn:Hall;
      [|discriminate Hfm].
    injection Hfm as _ <-.
    eapply score_all_state_kept; [|exact Hall].
    intros cl st0. rewrite (no_place_score _ _ _ _ Hjl). reflexivity. }
  intros m Hin. apply elem_of_slice_sort in Hin.
  destruct (Forall2_elem_l _ _ _ _ HF Hin) as (c & _ & Hsc).
  destruct (scored_from_fields _ _ _ _ _ _ _ _ _ _ Hsc)
    as (yrs & st0 & _ & _ & Hres & _ & _ & _ & Hloc).
  destruct Hres as (_ & _ & _ & _ & Hml).
  rewrite Hloc, Hml. cbn [component_scores location_score].
  rewrite (no_place_score _ _ _ _ Hjl). cbn [fst].
  split.
  - intros Hj Hc. apply truthy_str_Some in Hc. rewrite Hj, Hc.
    vm_compute. reflexivity.
  - intros [Hj|Hc].
    + rewrite Hj. vm_compute. reflexivity.
    + rewrite Hc. rewrite andb_false_r. vm_compute. reflexivity.
Qed.

End NoPlace.

Lemma find_matches_no_place_witness :
  exists out,
    find_matches (unit * list string) (with_log geocoder_two_towns)
      distance_392 no_entities encode_same cosine_1d remote_job
      [ada; bob] 10%Z (tt, []) = Some (out, (tt, [])) /\
    forall m, m ∈ out -> location_match m == 100.
Proof.
  destruct (find_matches_no_place unit geocoder_two_towns distance_392
              no_entities encode_same cosine_1d remote_job
              [ada; bob] 10%Z tt []) as (Hret & Hprop).
  - right. reflexivity.
  - destruct Hret as (out & st' & Hfm).
    { apply modest_texts_check. vm_compute. reflexivity. }
    destruct (Hprop out st' Hfm) as (-> & Hall).
    exists out. split; [exact Hfm|]. intros m Hin.
    destruct (Hall m Hin) as [H100 _]. apply H100; [reflexivity|].
    assert (exists out0, find_matches (unit * list string)
              (with_log geocoder_two_towns) distance_392 no_entities
              encode_same cosine_1d remote_job
              [ada; bob] 10%Z (tt, []) = Some (out0, (tt, [])) /\
            Forall (fun m => m_location m <> EmptyString) out0)
      as (out0 & E & HF).
    { eexists. split; [vm_compute; reflexivity|].
      repeat constructor; discriminate. }
    rewrite Hfm in E. injection E as <-.
    rewrite Forall_forall in HF. apply HF. exact Hin.
Defined.

(** ** Skill recommendations *)

Section RecommendationFacts.

Variable nlp_ents : string -> list (string * string).
Variable set_order : gset string -> list string.
(** Whatever the order, the list of a set holds its elements once each. *)
Hypothesis set_order_perm : forall X, set_order X ≡ₚ elements X.

Lemma has_any_iff wanted current :
  has_any wanted current = true <-> exists t, t ∈ wanted /\ t ∈ current.
Proof.
  unfold has_any. rewrite existsb_exists. split.
  - intros (t & Ht & Hc). exists t. split; [apply list_elem_of_In; exact Ht|].
    apply bool_decide_eq_true in Hc. exact Hc.
  - intros (t & Ht & Hc). exists t. split; [apply list_elem_of_In; exact Ht|].
    apply bool_decide_eq_true. exact Hc.
Qed.

Lemma elem_of_lacking pool current s :
  s ∈ lacking pool current <-> s ∈ pool /\ s ∉ current.
Proof. unfold lacking. rewrite list_elem_of_filter. tauto. Qed.

Lemma elem_of_proposals current s :
  s ∈ proposals current <-> proposed current s.
Proof.
  unfold proposals, proposed.
  destruct (has_any ["python"; "java"; "javascript"] current) eqn:H1;
    destruct (has_any ["python"; "r"; "sql"] current) eqn:H2;
    cbn [app]; rewrite ?elem_of_app, ?elem_of_lacking, ?elem_of_nil;
    try (apply has_any_iff in H1); try (apply has_any_iff in H2);
    try (assert (~ exists t, t ∈ ["python"; "java"; "javascript"] /\ t ∈ current)
           as N1 by (rewrite <- has_any_iff, H1; discriminate));
    try (assert (~ exists t, t ∈ ["python"; "r"; "sql"] /\ t ∈ current)
           as N2 by (rewrite <- has_any_iff, H2; discriminate));
    tauto.
Qed.

Lemma elem_of_set_order (X : gset string) s : s ∈ set_order X <-> s ∈ X.
Proof. rewrite (set_order_perm X). apply elem_of_elements. Qed.

(** X14. [get_skill_recommendations] returns at most five skills, each
    once. Every one of them is a web framework of its list, proposed
    because the candidate has python, java or javascript, or a data tool of
    its list, proposed because the candidate has python, r or sql; none is
    a skill the candidate already has. *)
Theorem get_skill_recommendations_sound (candidate_data : candidate) :
  let current :=
    extract_skills nlp_ents
      (skills candidate_data +:+ " " +:+ profile_summary candidate_data) in
  let recommended :=
    get_skill_recommendations nlp_ents set_order candidate_data in
  (length recommended <= 5)%nat /\
  NoDup recommended /\
  forall s, s ∈ recommended -> proposed current s.
Proof.
  intros current recommended. subst recommended.
  unfold get_skill_recommendations. fold current.
  split; [rewrite length_take; lia|]. split.
  - apply (sublist_NoDup _ (set_order (list_to_set (proposals current)))).
    + rewrite (set_order_perm _). apply NoDup_elements.
    + apply sublist_take.
  - intros s Hin. apply elem_of_proposals.
    apply elem_of_take in Hin as (i & Hi & _).
    apply list_elem_of_lookup_2 in Hi.
    apply elem_of_set_order, elem_of_list_to_set in Hi. exact Hi.
Qed.

(** X15. The number of recommendations is the number of distinct
    proposals, cut at five; so nothing is recommended exactly when nothing
    is proposed, and when there are at most five proposals all of them are
    recommended. *)
Theorem get_skill_recommendations_complete (candidate_data : candidate) :
  let current :=
    extract_skills nlp_ents
      (skills candidate_data +:+ " " +:+ profile_summary candidate_data) in
  let recommended :=
    get_skill_recommendations nlp_ents set_order candidate_data in
  let distinct : gset string := list_to_set (proposals current) in
  length recommended = Nat.min 5 (size distinct) /\
  (recommended = [] <-> forall s, ~ proposed current s) /\
  ((size distinct <= 5)%nat ->
   forall s, s ∈ recommended <-> proposed current s).
Proof.
  intros current recommended distinct. subst recommended.
  unfold get_skill_recommendations. fold current. fold distinct.
  assert (length (set_order distinct) = size distinct) as Hlen.
  { rewrite (set_order_perm distinct). reflexivity. }
  split; [rewrite length_take, Hlen; reflexivity|]. split.
  - split.
    + intros Hnil s Hs.
      assert (length (take 5 (set_order distinct)) = 0%nat) as H0
        by (rewrite Hnil; reflexivity).
      rewrite length_take, Hlen in H0.
      assert (size distinct = 0%nat) as Hsz by lia.
      apply size_empty_iff in Hsz.
      apply elem_of_proposals, (elem_of_list_to_set (C := gset string)) in Hs.
      fold distinct in Hs. rewrite Hsz in Hs. exact (not_elem_of_empty _ Hs).
    + intros Hnone. destruct (set_order distinct) as [|x l] eqn:E; [reflexivity|].
      exfalso. apply (Hnone x). apply elem_of_proposals.
      apply (elem_of_list_to_set (C := gset string)). fold distinct.
      apply elem_of_set_order. rewrite E. left.
  - intros Hsz s.
    rewrite take_ge by (rewrite Hlen; exact Hsz).
    rewrite elem_of_set_order. unfold distinct.
    rewrite elem_of_list_to_set. apply elem_of_proposals.
Qed.

End RecommendationFacts.

Lemma elements_perm (X : gset string) : elements X ≡ₚ elements X.
Proof. reflexivity. Qed.

Lemma get_skill_recommendations_sound_witness :
  (length (get_skill_recommendations no_entities elements bob) <= 5)%nat /\
  NoDup (get_skill_recommendations no_entities elements bob).
Proof.
  destruct (get_skill_recommendations_sound no_entities elements elements_perm
              bob) as (Hlen & Hnd & _).
  split; [exact Hlen|exact Hnd].
Defined.

Lemma get_skill_recommendations_complete_witness :
  length (get_skill_recommendations no_entities elements bob) = 5%nat /\
  get_skill_recommendations no_entities elements ada = [].
Proof.
  split.
  - destruct (get_skill_recommendations_complete no_entities elements
                elements_perm bob) as (-> & _ & _).
    vm_compute. reflexivity.
  - apply (get_skill_recommendations_complete no_entities elements
             elements_perm ada).
    intros s (_ & [(_ & t & Ht & Hc)|(_ & t & Ht & Hc)]);
      vm_compute in Hc; inversion Hc.
Defined.

(** ** Nobody is dropped *)

Section Everyone.

Variable W : Type.
Variable geocode : string -> W -> geo_outcome * W.
Variable geodesic : Q * Q -> Q * Q -> option Q.
Variable nlp_ents : string -> list (string * string).
Variable encode : string -> list Q.
Variable cosine_similarity : list Q -> list Q -> Q.

Lemma Forall2_elem_r {A B} (R : A -> B -> Prop) l k y :
  Forall2 R l k -> y ∈ k -> exists x, x ∈ l /\ R x y.
Proof.
  induction 1 as [|a b l k Hab _ IH]; intros Hin; [inversion Hin|].
  apply elem_of_cons in Hin as [->|Hin].
  - exists a. split; [left|exact Hab].
  - destruct (IH Hin) as (x & Hx & HR). exists x. split; [right|]; assumption.
Qed.

(** X18. When [top_n] is at least the number of rows with a name, the
    results that [find_matches] returns are a reordering of one result per
    such row: every named row has its result, with its identifier, name,
    email, position and location, and there are as many results as named
    rows. [find_matches] returns whenever the texts from which it reads
    numbers of years have at most 4300 characters. *)
Theorem find_matches_everyone (j : job) (cands : list candidate)
    (top_n : Z) (w : W) :
  (Z.of_nat (length (eligible cands)) <= top_n)%Z ->
  (modest_texts j cands ->
   exists out w',
     find_matches W geocode geodesic nlp_ents encode cosine_similarity
       j cands top_n w = Some (out, w')) /\
  forall out w',
    find_matches W geocode geodesic nlp_ents encode cosine_similarity
      j cands top_n w = Some (out, w') ->
    exists scored,
      out ≡ₚ scored /\
      Forall2 result_of scored (eligible cands) /\
      forall c, c ∈ cands -> full_name c <> EmptyString ->
        exists m, m ∈ out /\ result_of m c.
Proof.
  intros Hn. split; [apply find_matches_returns|]. intros out w' Hfm.
  destruct (find_matches_scored W geocode geodesic nlp_ents encode
              cosine_similarity j cands top_n w out w' Hfm)
    as (req & scored & _ & _ & HF & ->).
  assert (Forall2 result_of scored (eligible cands)) as HR.
  { eapply Forall2_impl; [exact HF|]. intros m c Hsc.
    destruct (scored_from_fields _ _ _ _ _ _ _ _ _ _ Hsc)
      as (_ & _ & _ & _ & Hres & _).
    exact Hres. }
  assert (slice_to top_n (sort_desc scored) = sort_desc scored) as Hall.
  { unfold slice_to.
    assert (0 <= top_n)%Z as H0 by lia. apply Z.leb_le in H0. rewrite H0.
    apply take_ge. rewrite (Permutation_length (sort_desc_perm scored)).
    rewrite (Forall2_length _ _ _ HF). lia. }
  exists scored. rewrite Hall.
  split; [apply sort_desc_perm|]. split; [exact HR|].
  intros c Hc Hname.
  destruct (Forall2_elem_r _ _ _ c HR) as (m & Hm & Hres).
  { apply elem_of_eligible. auto. }
  exists m. split; [|exact Hres]. rewrite (sort_desc_perm scored). exact Hm.
Qed.

End Everyone.

Lemma find_matches_everyone_witness :
  exists out,
    find_matches unit geocoder_blank no_distance no_entities encode_same
      cosine_1d sample_job [ada; bob] 10%Z tt = Some (out, tt) /\
    exists m, m ∈ out /\ m_name m = "Ada".
Proof.
  destruct (find_matches_everyone unit geocoder_blank no_distance no_entities
              encode_same cosine_1d sample_job [ada; bob] 10%Z tt)
    as (Hret & Hprop).
  - vm_compute. discriminate.
  - destruct Hret as (out & w' & Hfm).
    { apply modest_texts_check. vm_compute. reflexivity. }
    exists out. destruct w'. split; [exact Hfm|].
    destruct (Hprop out tt Hfm) as (scored & _ & _ & Hall).
    destruct (Hall ada) as (m & Hm & Hres); [left|discriminate|].
    exists m. split; [exact Hm|]. apply Hres.
Defined.

(** ** Full and empty skills scores *)

Lemma nat_ratio_one (a b : nat) :
  (0 < b)%nat ->
  inject_Z (Z.of_nat a) / inject_Z (Z.of_nat b) == 1 <-> a = b.
Proof.
  intros Hb.
  assert (~ inject_Z (Z.of_nat b) == 0) as Hne.
  { intros H. apply (inject_Z_injective (Z.of_nat b) 0) in H. lia. }
  split.
  - intros H.
    assert (inject_Z (Z.of_nat a) == inject_Z (Z.of_nat b)) as Heq.
    { rewrite <- (Qmult_div_r (inject_Z (Z.of_nat a)) _ Hne), H.
      apply Qmult_1_r. }
    apply (proj1 (inject_Z_injective _ _)) in Heq. lia.
  - intros ->. unfold Qdiv. apply Qmult_inv_r. exact Hne.
Qed.

Lemma nat_ratio_zero (a b : nat) :
  (0 < b)%nat ->
  inject_Z (Z.of_nat a) / inject_Z (Z.of_nat b) == 0 <-> a = 0%nat.
Proof.
  intros Hb.
  assert (0 < inject_Z (Z.of_nat b)) as Hpos.
  { change 0 with (inject_Z 0). rewrite <- Zlt_Qlt. lia. }
  split.
  - intros H. destruct a as [|a]; [reflexivity|exfalso].
    assert (0 < inject_Z (Z.of_nat (S a)) / inject_Z (Z.of_nat b)) as Hgt.
    { apply Qlt_shift_div_l; [exact Hpos|]. rewrite Qmult_0_l.
      change 0 with (inject_Z 0). rewrite <- Zlt_Qlt. lia. }
    rewrite H in Hgt. apply (Qlt_irrefl 0). exact Hgt.
  - intros ->. unfold Qdiv. change (inject_Z (Z.of_nat 0)) with 0.
    apply Qmult_0_l.
Qed.

(** X19. With skills on both sides, the skills score is 1 exactly when
    every required skill is among the candidate's (letter case apart), and
    0 exactly when none is. *)
Theorem calculate_skills_match_extremes
    (candidate_skills required_skills : list string) :
  candidate_skills <> [] -> required_skills <> [] ->
  (calculate_skills_match (Some candidate_skills) (Some required_skills) == 1
   <-> skill_set required_skills ⊆ skill_set candidate_skills) /\
  (calculate_skills_match (Some candidate_skills) (Some required_skills) == 0
   <-> skill_set candidate_skills ∩ skill_set required_skills = ∅).
Proof.
  intros Hc Hr.
  rewrite (calculate_skills_match_ratio _ _ Hc Hr). unfold overlap_ratio.
  pose proof (size_pos_of_nonempty _ (skill_set_nonempty _ Hr)) as Hpos.
  rewrite (nat_ratio_one _ _ Hpos), (nat_ratio_zero _ _ Hpos).
  split.
  - split.
    + intros Hsz.
      assert (skill_set candidate_skills ∩ skill_set required_skills
              = skill_set required_skills) as Heq.
      { apply set_subseteq_size_eq; [set_solver|lia]. }
      set_solver.
    + intros Hsub. f_equal. apply leibniz_equiv. set_solver.
  - split.
    + intros Hsz. apply leibniz_equiv, size_empty_iff. exact Hsz.
    + intros ->. apply size_empty.
Qed.

Lemma calculate_skills_match_extremes_witness :
  calculate_skills_match (Some ["SQL"; "Python"; "go"]) (Some ["python"; "sql"])
  == 1.
Proof.
  apply (calculate_skills_match_extremes ["SQL"; "Python"; "go"] ["python"; "sql"]).
  - discriminate.
  - discriminate.
  - intros s Hs. vm_compute in Hs. vm_compute.
    destruct (decide (s = "python")) as [->|Hn1]; [reflexivity|].
    destruct (decide (s = "sql")) as [->|Hn2]; [reflexivity|].
    exfalso. revert Hs. change (s ∈ ({["python"; "sql"]} : gset string) -> False).
    set_solver.
Defined.
